(** * TediCross, Telegram to Discord relay: [lib/telegram2discord/setup.js]

    A shallow embedding of the message handlers that [setup] registers on the
    Telegram bot, of the wrapper [createMessageHandler] that filters the
    messages before they reach a handler, and of the helpers [makeFileSender]
    and [makeNameObject], followed by the properties of the relay.

    Conventions of the embedding.
    - A JavaScript string is a [string]; every character stands for one
      UTF-16 code unit (the development covers code units below 256), so
      [String.length] is the [length] property of the JavaScript string.
    - [undefined] and [null] are [None] of an [option].
    - Telegram identifiers are numbers ([Z]), Discord identifiers strings.
    - Calls to the two platforms are answered by an [Environment]; every
      call is written to a chronological trace together with its outcome.
    - An [async] function runs to completion before the next task starts:
      the effects of distinct tasks are not interleaved in the trace. *)

From Stdlib Require Import ZArith String Ascii List Lia DecimalString.
From stdpp Require Import base gmap strings list.

Open Scope string_scope.
Open Scope list_scope.

(** ** JavaScript strings *)

Module Js.

(** The line feed written [\n] in the template literals. *)
Definition nl : string := String "010"%char EmptyString.

(** [s.substring(0, n)] *)
Fixpoint take (n : nat) (s : string) : string :=
  match n, s with
  | S k, String c r => String c (take k r)
  | _, _ => EmptyString
  end.

(** [s.substring(n)] *)
Fixpoint drop (n : nat) (s : string) : string :=
  match n, s with
  | S k, String c r => drop k r
  | _, _ => s
  end.

(** Successive greedy matches of [[\s\S]{1,n}] from the start of [s]: the
    class [[\s\S]] accepts every code unit, so each match takes [n] code
    units, or what is left.  [fuel] bounds the number of matches. *)
Fixpoint matches (n fuel : nat) (s : string) : list string :=
  match fuel with
  | O => []
  | S f =>
      match s with
      | EmptyString => []
      | _ => take n s :: matches n f (drop n s)
      end
  end.

(** [s.match(/[\s\S]{1,n}/g)]: the list of all matches, or [null] when
    there is none. *)
Definition match_all (n : nat) (s : string) : option (list string) :=
  match matches n (String.length s) s with
  | [] => None
  | l => Some l
  end.

(** The concatenation of a list of strings, in order. *)
Definition concat (l : list string) : string :=
  fold_right String.append EmptyString l.

(** [String.prototype.toLowerCase] on one code unit below 256: the
    letters A-Z and the Latin-1 capitals (all of C0-DE but D7, the
    multiplication sign) move up by 32. *)
Definition lower_unit (c : ascii) : ascii :=
  let n := nat_of_ascii c in
  if ((65 <=? n) && (n <=? 90)
      || (192 <=? n) && (n <=? 222) && negb (n =? 215))%nat
  then ascii_of_nat (n + 32)
  else c.

Fixpoint toLowerCase (s : string) : string :=
  match s with
  | EmptyString => EmptyString
  | String c r => String (lower_unit c) (toLowerCase r)
  end.

(** [s.split(sep)] for a separator of one code unit: never empty. *)
Fixpoint split (sep : ascii) (s : string) : list string :=
  match s with
  | EmptyString => [EmptyString]
  | String c r =>
      if Ascii.eqb c sep then EmptyString :: split sep r
      else match split sep r with
           | h :: t => String c h :: t
           | [] => [String c EmptyString]
           end
  end.

(** [l.pop()] on the result of [split]. *)
Definition pop (l : list string) : string := List.last l EmptyString.

(** A number in string context, as in ["chatID: " + message.chat.id]: the
    decimal digits of an integer, with a minus sign when it is negative (the
    identifiers of Telegram stay below the 21 digits where JavaScript turns
    to the exponent form). *)
Definition of_number (z : Z) : string :=
  NilZero.string_of_int (Z.to_int z).

(** An optional string in string context: [undefined] and [null] print
    their names. *)
Definition of_undefined (o : option string) : string :=
  match o with Some s => s | None => "undefined" end.

Definition of_null (o : option string) : string :=
  match o with Some s => s | None => "null" end.

End Js.

(** ** Data model *)

(** A Telegram user: [first_name] is always there, the other two are
    optional. *)
Record User := {
  first_name : string;
  last_name : option string;
  username : option string;
}.

Record Chat := { chat_id : Z }.

Record PhotoSize := { photo_file_id : string }.

Record Sticker := {
  sticker_thumb : option PhotoSize;
  sticker_emoji : option string;
}.

Record Document := {
  document_file_id : string;
  document_file_name : option string;
  document_mime_type : option string;
}.

Record Voice := { voice_file_id : string; voice_mime_type : option string }.

Record Audio := {
  audio_file_id : string;
  audio_title : option string;
  audio_mime_type : option string;
}.

Record Video := { video_file_id : string; video_mime_type : option string }.

(** A Telegram message object.  All content fields are optional: which of
    them are present decides the listeners the message reaches. *)
Record Message := {
  message_id : Z;
  chat : Chat;
  from : option User;
  text : option string;
  caption : option string;
  photo : option (list PhotoSize);
  sticker : option Sticker;
  document : option Document;
  voice : option Voice;
  audio : option Audio;
  video : option Video;
  new_chat_members : option (list User);
  left_chat_member : option User;
}.

(** The Telegraf context handed to a listener; the wrapper reads these three
    properties. *)
Record TelegrafContext := {
  ctx_message : option Message;
  ctx_channel_post : option Message;
  ctx_editedMessage : option Message;
}.

(** Modelled from the spec: the class [Bridge] of [../bridgestuff/Bridge] is
    not among the sources.  A bridge pairs one Telegram chat with one Discord
    channel and has a name, a direction (both ways, or one way only) and the
    flags relayJoinMessages, relayLeaveMessages and sendEmojiWithStickers.
    The handlers read [name], [direction], [discord.channelId],
    [telegram.relayJoinMessages] and [telegram.relayLeaveMessages]; no
    handler reads the sticker flag of a bridge. *)
Inductive Direction :=
| DIRECTION_BOTH
| DIRECTION_TELEGRAM_TO_DISCORD
| DIRECTION_DISCORD_TO_TELEGRAM.

Record BridgeTelegram := {
  chatId : Z;
  relayJoinMessages : bool;
  relayLeaveMessages : bool;
  bridge_sendEmojiWithStickers : bool;
}.

Record BridgeDiscord := { channelId : string }.

Record Bridge := {
  name : string;
  direction : Direction;
  telegram : BridgeTelegram;
  discord : BridgeDiscord;
}.

#[global] Instance Direction_eq_dec : EqDecision Direction.
Proof. solve_decision. Defined.

(** Modelled from the spec: the class [BridgeMap] is not among the sources.
    The registry is looked up by the Telegram chat id and answers with a
    bridge or with [undefined]. *)
Definition fromTelegramChatId (bridgeMap : gmap Z Bridge) (id : Z)
  : option Bridge :=
  bridgeMap !! id.

(** The part of the settings object that the handlers read:
    [settings.telegram]. *)
Record Settings := {
  skipOldMessages : bool;
  sendEmojiWithStickers : bool;
}.

(** What [messageConverter] returns: the display of the sender and the
    composed text. *)
Record MessageObj := {
  obj_from : string;
  composed : string;
}.

(** ** Errors, outcomes and the trace *)

Inductive JsError :=
| TypeError (msg : string)
| Rejection (reason : string).

(** How a promise settles. *)
Inductive Settled (A : Type) :=
| Fulfilled (a : A)
| Rejected (e : JsError).

Arguments Fulfilled {A} a.
Arguments Rejected {A} e.

(** [new Discord.Attachment(request(fileLink), name)]: the stream of the
    download link, and the file name. *)
Record Attachment := {
  att_link : string;
  att_name : string;
}.

(** The file object of [getFile]. *)
Record File := { file_path : option string }.

Inductive LogArg :=
| ArgErr (e : JsError)
| ArgText (t : option string)
| ArgMessage (m : Message).

(** The observable effects, each call with the way it settled. *)
Inductive Event :=
| TgSendMessage (to : Z) (body : string) (parse_mode : option string)
    (r : Settled unit)
| TgGetFile (fileId : string) (r : Settled File)
| TgGetFileLink (fileId : string) (r : Settled string)
| DcSend (channel : string) (body : string) (file : option Attachment)
    (r : Settled string)
| DcFetchMessage (channel : string) (id : string) (r : Settled unit)
| DcEdit (id : string) (body : string) (r : Settled unit)
| LogError (line : string) (args : list LogArg)
| UnhandledRejection (e : JsError).

(** The two platforms.  Each answer may depend on everything that happened
    before the call.  [dcBot_ready] is one promise and settles one way;
    [dcBot_channels] is the set of channels [dcBot.channels.get] finds. *)
Record Environment := {
  dcBot_ready : Settled unit;
  dcBot_channels : string -> bool;
  channel_send :
    list Event -> string -> string -> option Attachment -> Settled string;
  channel_fetchMessage : list Event -> string -> string -> Settled unit;
  dcMessage_edit : list Event -> string -> string -> Settled unit;
  telegram_getFile : list Event -> string -> Settled File;
  telegram_getFileLink : list Event -> string -> Settled string;
  telegram_sendMessage :
    list Event -> Z -> string -> option string -> Settled unit;
}.

(** Modelled from the spec: the class [MessageMap] is not among the sources.
    The store records, per direction tag, which source message id produced
    which destination message id; there is at most one destination id per
    pair of tag and source id and the last write wins; an entry is never
    deleted; looking up a source id without an entry fails.  Only the tag
    [TELEGRAM_TO_DISCORD] is used by these handlers, so the source id is a
    Telegram message id and the destination id a Discord one. *)
Inductive MapDirection := TELEGRAM_TO_DISCORD | DISCORD_TO_TELEGRAM.

#[global] Instance MapDirection_eq_dec : EqDecision MapDirection.
Proof. solve_decision. Defined.

#[global] Instance MapDirection_countable : Countable MapDirection.
Proof.
  refine (inj_countable'
            (fun d => match d with
                      | TELEGRAM_TO_DISCORD => true
                      | DISCORD_TO_TELEGRAM => false
                      end)
            (fun b => if b then TELEGRAM_TO_DISCORD else DISCORD_TO_TELEGRAM)
            _).
  intros []; reflexivity.
Defined.

Abbreviation MessageMap := (gmap (MapDirection * Z) string).

(** The state the handlers work on: the trace so far, the message map and
    [tgBot.telegram.me], which is set once [getMe] has answered. *)
Record World := {
  trace : list Event;
  messageMap : MessageMap;
  me : option User;
}.

Definition set_trace (t : list Event) (w : World) : World :=
  {| trace := t; messageMap := messageMap w; me := me w |}.

Definition set_messageMap (m : MessageMap) (w : World) : World :=
  {| trace := trace w; messageMap := m; me := me w |}.

(** ** Computations: state and exceptions *)

(** How a piece of JavaScript completes: normally with a value, or with a
    thrown error (for the body of an [async] function: a rejected promise). *)
Inductive Completion (A : Type) :=
| Normal (a : A)
| Throw (e : JsError).

Arguments Normal {A} a.
Arguments Throw {A} e.

Definition M (A : Type) : Type := World -> Completion A * World.

Definition ret {A} (a : A) : M A := fun w => (Normal a, w).

Definition throw {A} (e : JsError) : M A := fun w => (Throw e, w).

Definition bind {A B} (m : M A) (k : A -> M B) : M B :=
  fun w =>
    match m w with
    | (Normal a, w') => k a w'
    | (Throw e, w') => (Throw e, w')
    end.

Notation "'let*' x ':=' m 'in' k" := (bind m (fun x => k))
  (at level 10, x pattern, m at level 100, k at level 200).

(** [try { body } catch (err) { handler }] *)
Definition tryCatch {A} (body : M A) (handler : JsError -> M A) : M A :=
  fun w =>
    match body w with
    | (Normal a, w') => (Normal a, w')
    | (Throw e, w') => handler e w'
    end.

Definition emit (e : Event) : M unit :=
  fun w => (Normal tt, set_trace (trace w ++ [e]) w).

(** [Application.logger.error(line, ...args)] *)
Definition logger_error (line : string) (args : list LogArg) : M unit :=
  emit (LogError line args).

(** A call to one of the platforms: the environment answers from the trace
    so far, and the call is recorded with its answer.  The result is the
    promise, settled. *)
Definition perform {A} (answer : list Event -> Settled A)
  (record : Settled A -> Event) : M (Settled A) :=
  fun w =>
    let r := answer (trace w) in
    (Normal r, set_trace (trace w ++ [record r]) w).

(** [await promise] *)
Definition await {A} (p : Settled A) : M A :=
  match p with
  | Fulfilled a => ret a
  | Rejected e => throw e
  end.

(** Reading a property of [o], which throws when [o] is [undefined]. *)
Definition defined {A} (o : option A) (what : string) : M A :=
  match o with
  | Some a => ret a
  | None => throw (TypeError what)
  end.

(** A call of an [async] function whose promise nobody awaits: the body runs,
    nothing is thrown to the caller, and a rejection stays unhandled. *)
Definition async (body : M unit) : M unit :=
  fun w =>
    match body w with
    | (Normal _, w') => (Normal tt, w')
    | (Throw e, w') => emit (UnhandledRejection e) w'
    end.

(** [for (const x of l) { s = body(s, x) }] *)
Fixpoint for_of {A S} (l : list A) (body : S -> A -> M S) (s : S) : M S :=
  match l with
  | [] => ret s
  | x :: rest => let* s' := body s x in for_of rest body s'
  end.

(** [l.forEach(f)] *)
Fixpoint forEach {A} (l : list A) (f : A -> M unit) : M unit :=
  match l with
  | [] => ret tt
  | x :: rest => let* _ := f x in forEach rest f
  end.

(** Modelled from the spec: [messageMap.insert(direction, fromId, toId)] of
    the class [MessageMap], which is not among the sources; the last write
    for a pair of tag and source id wins. *)
Definition messageMap_insert (d : MapDirection) (fromId : Z) (toId : string)
  : M unit :=
  fun w => (Normal tt, set_messageMap (<[(d, fromId) := toId]> (messageMap w)) w).

(** Modelled from the spec: [messageMap.getCorresponding(direction, fromId)]
    of the class [MessageMap], which is not among the sources; the promise
    is rejected when the source id has no entry. *)
Definition messageMap_getCorresponding (d : MapDirection) (fromId : Z)
  : M string :=
  fun w =>
    match messageMap w !! (d, fromId) with
    | Some toId => (Normal toId, w)
    | None => (Throw (Rejection "No corresponding message ID"), w)
    end.

(** The size limit of one Discord message, in code units. *)
Definition DISCORD_LIMIT : nat := 2000.

(** The advisory notice for a chat without a bridge. *)
Definition ADVISORY : string :=
  "This is an instance of a [TediCross](https://github.com/TediCross/TediCross) bot, "
  +:+ "bridging a chat in Telegram with one in Discord. "
  +:+ "If you wish to use TediCross yourself, please download and create an instance. "
  +:+ "Join our [Telegram group](https://t.me/TediCrossSupport) or [Discord server](https://discord.gg/MfzGMzy) for help".

(** [makeNameObject]: the full name of a user, and the username or the text
    [No username]. *)
Record NameObject := { nameObj_name : string; nameObj_username : string }.

Definition makeNameObject (user : User) : NameObject :=
  let name :=
    first_name user
    +:+ match last_name user with
        | Some l => " " +:+ l
        | None => EmptyString
        end in
  let username :=
    match username user with
    | Some u => "@" +:+ u
    | None => "No username"
    end in
  {| nameObj_name := name; nameObj_username := username |}.

(** The argument object of the file sender; [caption] and
    [resolveExtension] are optional there. *)
Record FileArg := {
  arg_message : Message;
  arg_fileId : string;
  arg_fileName : option string;
  arg_caption : option string;
  arg_resolveExtension : option bool;
}.

(** ** The handlers *)

Section Relay.

(** The two platforms. *)
Variable env : Environment.

(** [settings.telegram] *)
Variable settings : Settings.

(** [messageConverter(message, dcUsers, tgBot, settings, dcBot, bridge)] of
    [./messageConverter], which is not among the sources: any function of
    the message and the bridge. *)
Variable messageConverter : Message -> Bridge -> MessageObj.

(** [mime.getExtension(type)] of the package [mime]: the extension of a
    content type, or [null]. *)
Variable getExtension : option string -> option string.

(** [await dcBot.ready] *)
Definition await_ready : M unit := await (dcBot_ready env).

(** [dcBot.channels.get(id)]: the channel, or [undefined]. *)
Definition channels_get (id : string) : option string :=
  if dcBot_channels env id then Some id else None.

(** [await channel.send(text, attachment)], which resolves to the id of the
    new Discord message. *)
Definition send (channel : option string) (body : string)
  (file : option Attachment) : M string :=
  let* c := defined channel "Cannot read property 'send' of undefined" in
  let* p := perform (fun h => channel_send env h c body file)
              (DcSend c body file) in
  await p.

(** [await channel.fetchMessage(id)], which resolves to the message [id]. *)
Definition fetchMessage (channel : option string) (id : string) : M string :=
  let* c := defined channel
              "Cannot read property 'fetchMessage' of undefined" in
  let* p := perform (fun h => channel_fetchMessage env h c id)
              (DcFetchMessage c id) in
  let* _ := await p in
  ret id.

(** [await dcMessage.edit(text)] *)
Definition edit (dcMessage : string) (body : string) : M unit :=
  let* p := perform (fun h => dcMessage_edit env h dcMessage body)
              (DcEdit dcMessage body) in
  await p.

(** [tgBot.telegram.sendMessage({chat_id, text, parse_mode})]: the promise. *)
Definition sendMessage (to : Z) (body : string) (parse_mode : option string)
  : M (Settled unit) :=
  perform (fun h => telegram_sendMessage env h to body parse_mode)
    (TgSendMessage to body parse_mode).

(** [textToSend] of the file sender: the sender in bold, a colon, a line
    feed and the caption, which is empty when none is given. *)
Definition file_text (b : Bridge) (m : Message) (cap : option string)
  : string :=
  let caption := default EmptyString cap in
  let messageObj := messageConverter m b in
  "**" +:+ obj_from messageObj +:+ "**:" +:+ Js.nl +:+ caption.

(** The function returned by [makeFileSender].  Both requests of
    [Promise.all] are started.  When both are rejected, [Promise.all] throws
    the error of the one that is rejected first in time; the order of the
    two in time is not part of a trace, and the error taken here is the one
    of the file.  No property below rests on which of the two it is. *)
Definition sendFile (bridge : Bridge) (arg : FileArg) : M unit :=
  let resolveExtension := default false (arg_resolveExtension arg) in
  let textToSend := file_text bridge (arg_message arg) (arg_caption arg) in
  let* _ := await_ready in
  let* p1 := perform (fun h => telegram_getFile env h (arg_fileId arg))
               (TgGetFile (arg_fileId arg)) in
  let* p2 := perform (fun h => telegram_getFileLink env h (arg_fileId arg))
               (TgGetFileLink (arg_fileId arg)) in
  let* file := await p1 in
  let* fileLink := await p2 in
  let* extension :=
    if resolveExtension then
      let* path := defined (file_path file)
                     "Cannot read property 'split' of undefined" in
      ret ("." +:+ Js.pop (Js.split "." path))
    else ret EmptyString in
  let* _ := send (channels_get (channelId (discord bridge))) textToSend
              (Some {| att_link := fileLink;
                       att_name := Js.of_undefined (arg_fileName arg)
                                   +:+ extension |}) in
  ret tt.

(** The test of [createMessageHandler] for a request for chat info. *)
Definition is_chatinfo (bot : option User) (message : Message) : bool :=
  match text message, bot with
  | Some t, Some b =>
      String.eqb (Js.toLowerCase t)
        (Js.toLowerCase ("@" +:+ Js.of_undefined (username b) +:+ " chatinfo"))
  | _, _ => false
  end.

(** The message [createMessageHandler] extracts from the context: an
    ordinary message, else a channel post, else the edited message. *)
Definition ctx_payload (ctx : TelegrafContext) : option Message :=
  match ctx_message ctx, ctx_channel_post ctx with
  | Some m, _ => Some m
  | None, Some m => Some m
  | None, None => ctx_editedMessage ctx
  end.

(** [createMessageHandler(tgBot, bridgeMap, func, ctx)] *)
Definition createMessageHandler (bridgeMap : gmap Z Bridge)
  (func : Message -> Bridge -> M unit) (ctx : TelegrafContext) : M unit :=
  let* message := defined (ctx_payload ctx)
                    "Cannot read property 'text' of undefined" in
  fun w =>
    (if is_chatinfo (me w) message then
       let* p := sendMessage (chat_id (chat message))
                   ("chatID: " +:+ Js.of_number (chat_id (chat message)))
                   None in
       match p with
       | Fulfilled _ => ret tt
       | Rejected err => emit (UnhandledRejection err)
       end
     else
       match fromTelegramChatId bridgeMap (chat_id (chat message)) with
       | None =>
           let* p := sendMessage (chat_id (chat message)) ADVISORY
                       (Some "markdown") in
           match p with
           | Fulfilled _ => ret tt
           | Rejected err =>
               logger_error
                 "Could not tell user to get their own TediCross instance:"
                 [ArgErr err; ArgMessage message]
           end
       | Some bridge =>
           if decide (direction bridge <> DIRECTION_DISCORD_TO_TELEGRAM)
           then func message bridge
           else ret tt
       end) w.

(** The tag that starts every log line of a handler. *)
Definition tag (bridge : Bridge) : string := "[" +:+ name bridge +:+ "] ".

(** The listener for [text]. *)
Definition text_handler (message : Message) (bridge : Bridge) : M unit :=
  let messageObj := messageConverter message bridge in
  tryCatch
    (let* _ := await_ready in
     let chunks := Js.match_all DISCORD_LIMIT (composed messageObj) in
     let channel := channels_get (channelId (discord bridge)) in
     let* chunks := defined chunks "chunks is not iterable" in
     let* dcMessage :=
       for_of chunks
         (fun _ chunk => let* m := send channel chunk None in ret (Some m))
         None in
     let* dcMessage := defined dcMessage
                         "Cannot read property 'id' of null" in
     messageMap_insert TELEGRAM_TO_DISCORD (message_id message) dcMessage)
    (fun err =>
       let* _ := logger_error
                   (tag bridge +:+ "Discord did not accept a text message:")
                   [ArgErr err] in
       logger_error (tag bridge +:+ "Failed message:")
         [ArgText (text message)]).

(** The two log lines that the catch block of the listener for [text]
    writes. *)
Definition text_logs (m : Message) (b : Bridge) (err : JsError)
  : list Event :=
  [LogError (tag b +:+ "Discord did not accept a text message:") [ArgErr err];
   LogError (tag b +:+ "Failed message:") [ArgText (text m)]].

(** The listener for [photo]: the last size of the array. *)
Definition photo_handler (message : Message) (bridge : Bridge) : M unit :=
  tryCatch
    (let* sizes := defined (photo message)
                     "Cannot read property 'length' of undefined" in
     let* size := defined (List.last (map Some sizes) None)
                    "Cannot read property 'file_id' of undefined" in
     sendFile bridge
       {| arg_message := message;
          arg_fileId := photo_file_id size;
          arg_fileName := Some "photo.jpg";
          arg_caption := caption message;
          arg_resolveExtension := None |})
    (fun err =>
       logger_error (tag bridge +:+ "Could not send photo") [ArgErr err]).

(** The listener for [sticker]. *)
Definition sticker_handler (message : Message) (bridge : Bridge) : M unit :=
  tryCatch
    (let* st := defined (sticker message)
                  "Cannot read property 'thumb' of undefined" in
     let* th := defined (sticker_thumb st)
                  "Cannot read property 'file_id' of undefined" in
     sendFile bridge
       {| arg_message := message;
          arg_fileId := photo_file_id th;
          arg_fileName := Some "sticker.webp";
          arg_caption :=
            if sendEmojiWithStickers settings then sticker_emoji st
            else None;
          arg_resolveExtension := None |})
    (fun err =>
       logger_error (tag bridge +:+ "Could not send sticker") [ArgErr err]).

(** The listener for [document]. *)
Definition document_handler (message : Message) (bridge : Bridge) : M unit :=
  let* doc := defined (document message)
                "Cannot read property 'file_name' of undefined" in
  let fileName :=
    match document_file_name doc with
    | Some n => n
    | None => "file." +:+ Js.of_null (getExtension (document_mime_type doc))
    end in
  tryCatch
    (sendFile bridge
       {| arg_message := message;
          arg_fileId := document_file_id doc;
          arg_fileName := Some fileName;
          arg_caption := None;
          arg_resolveExtension := Some false |})
    (fun err =>
       logger_error (tag bridge +:+ "Could not send document") [ArgErr err]).

(** The listener for [voice]. *)
Definition voice_handler (message : Message) (bridge : Bridge) : M unit :=
  tryCatch
    (let* v := defined (voice message)
                 "Cannot read property 'file_id' of undefined" in
     sendFile bridge
       {| arg_message := message;
          arg_fileId := voice_file_id v;
          arg_fileName :=
            Some ("voice" +:+ "."
                  +:+ Js.of_null (getExtension (voice_mime_type v)));
          arg_caption := None;
          arg_resolveExtension := Some false |})
    (fun err =>
       logger_error (tag bridge +:+ "Could not send voice") [ArgErr err]).

(** The listener for [audio]. *)
Definition audio_handler (message : Message) (bridge : Bridge) : M unit :=
  tryCatch
    (let* a := defined (audio message)
                 "Cannot read property 'file_id' of undefined" in
     sendFile bridge
       {| arg_message := message;
          arg_fileId := audio_file_id a;
          arg_fileName := audio_title a;
          arg_caption := None;
          arg_resolveExtension := Some true |})
    (fun err =>
       logger_error (tag bridge +:+ "Could not send audio") [ArgErr err]).

(** The listener for [video]. *)
Definition video_handler (message : Message) (bridge : Bridge) : M unit :=
  tryCatch
    (let* v := defined (video message)
                 "Cannot read property 'file_id' of undefined" in
     sendFile bridge
       {| arg_message := message;
          arg_fileId := video_file_id v;
          arg_fileName :=
            Some ("video" +:+ "."
                  +:+ Js.of_null (getExtension (video_mime_type v)));
          arg_caption := caption message;
          arg_resolveExtension := Some false |})
    (fun err =>
       logger_error (tag bridge +:+ "Could not send video") [ArgErr err]).

(** The text of the notice for a user who joined. *)
Definition join_text (user : User) : string :=
  let nameObj := makeNameObject user in
  "**" +:+ nameObj_name nameObj +:+ " (" +:+ nameObj_username nameObj
  +:+ ")** joined the Telegram side of the chat".

(** The callback of [forEach] in the listener for [new_chat_members]. *)
Definition notify_join (bridge : Bridge) (user : User) : M unit :=
  let text := join_text user in
  tryCatch
    (let* _ := await_ready in
     let* _ := send (channels_get (channelId (discord bridge))) text None in
     ret tt)
    (fun err =>
       logger_error
         (tag bridge
          +:+ "Could not notify Discord about a user that joined Telegram")
         [ArgErr err]).

(** The listener for [new_chat_members].  It is not an [async] function;
    its callback is, and no promise of the callback is awaited. *)
Definition new_chat_members_handler (message : Message) (bridge : Bridge)
  : M unit :=
  if negb (relayJoinMessages (telegram bridge)) then ret tt
  else
    let* users := defined (new_chat_members message)
                    "Cannot read property 'forEach' of undefined" in
    forEach users (fun user => async (notify_join bridge user)).

(** The text of the notice for a user who left. *)
Definition leave_text (user : User) : string :=
  let nameObj := makeNameObject user in
  "**" +:+ nameObj_name nameObj +:+ " (" +:+ nameObj_username nameObj
  +:+ ")** left the Telegram side of the chat".

(** The listener for [left_chat_member]. *)
Definition left_chat_member_handler (message : Message) (bridge : Bridge)
  : M unit :=
  if negb (relayLeaveMessages (telegram bridge)) then ret tt
  else
    let* user := defined (left_chat_member message)
                   "Cannot read property 'first_name' of undefined" in
    let text := leave_text user in
    tryCatch
      (let* _ := await_ready in
       let* _ := send (channels_get (channelId (discord bridge))) text None in
       ret tt)
      (fun err =>
         logger_error
           (tag bridge
            +:+ "Could not notify Discord about a user that left Telegram")
           [ArgErr err]).

(** The listener for [edited_message]. *)
Definition edited_message_handler (tgMessage : Message) (bridge : Bridge)
  : M unit :=
  tryCatch
    (let* _ := await_ready in
     let* dcMessageId :=
       messageMap_getCorresponding TELEGRAM_TO_DISCORD
         (message_id tgMessage) in
     let* dcMessage :=
       fetchMessage (channels_get (channelId (discord bridge)))
         dcMessageId in
     let messageObj := messageConverter tgMessage bridge in
     edit dcMessage (composed messageObj))
    (fun err =>
       logger_error (tag bridge +:+ "Could not edit Discord message:")
         [ArgErr err]).

(** The event names [setup] registers a listener for. *)
Inductive EventName :=
| on_text
| on_photo
| on_sticker
| on_document
| on_voice
| on_audio
| on_video
| on_new_chat_members
| on_left_chat_member
| on_edited_message.

(** The function [setup] passes to the wrapper for each event name: a call
    of the arrow function.  All but the one for [new_chat_members] are
    [async], and the wrapper awaits none of them. *)
Definition relay (k : EventName) (message : Message) (bridge : Bridge)
  : M unit :=
  match k with
  | on_text => async (text_handler message bridge)
  | on_photo => async (photo_handler message bridge)
  | on_sticker => async (sticker_handler message bridge)
  | on_document => async (document_handler message bridge)
  | on_voice => async (voice_handler message bridge)
  | on_audio => async (audio_handler message bridge)
  | on_video => async (video_handler message bridge)
  | on_new_chat_members => new_chat_members_handler message bridge
  | on_left_chat_member => async (left_chat_member_handler message bridge)
  | on_edited_message => async (edited_message_handler message bridge)
  end.

(** [tgBot.on(k, wrapFunction(...))]: the listener for the event [k]. *)
Definition listener (bridgeMap : gmap Z Bridge) (k : EventName)
  : TelegrafContext -> M unit :=
  createMessageHandler bridgeMap (relay k).

(** The events of the bot handed to their listeners in the order of their
    arrival.  An error thrown by a listener ends the delivery: nothing
    outside the listeners is assumed to catch it. *)
Fixpoint deliver (bridgeMap : gmap Z Bridge)
  (events : list (EventName * TelegrafContext)) : M unit :=
  match events with
  | [] => ret tt
  | (k, ctx) :: rest =>
      let* _ := listener bridgeMap k ctx in
      deliver bridgeMap rest
  end.

End Relay.

#[global] Instance EventName_eq_dec : EqDecision EventName.
Proof. solve_decision. Defined.

(** ** Reading a trace *)

(** The world after some more events, with a message map. *)
Definition after (w : World) (evs : list Event) (mm : MessageMap) : World :=
  {| trace := trace w ++ evs; messageMap := mm; me := me w |}.

(** A call for an attachment or to the destination that was rejected. *)
Definition failed (e : Event) : bool :=
  match e with
  | TgGetFile _ (Rejected _)
  | TgGetFileLink _ (Rejected _)
  | DcSend _ _ _ (Rejected _)
  | DcFetchMessage _ _ (Rejected _)
  | DcEdit _ _ (Rejected _) => true
  | _ => false
  end.

(** A call to one of the platforms, as opposed to a log line or an
    unhandled rejection. *)
Definition is_call (e : Event) : bool :=
  match e with
  | LogError _ _ | UnhandledRejection _ => false
  | _ => true
  end.

Definition unhandled (e : Event) : bool :=
  match e with
  | UnhandledRejection _ => true
  | _ => false
  end.

(** A log line that starts with the name of the bridge in brackets. *)
Definition is_log_of (bridge : Bridge) (e : Event) : Prop :=
  exists rest args, e = LogError (tag bridge +:+ rest) args.

(** Every rejected call is followed by a log line of the bridge. *)
Fixpoint failures_logged (bridge : Bridge) (evs : list Event) : Prop :=
  match evs with
  | [] => True
  | e :: rest =>
      (failed e = true -> Exists (is_log_of bridge) rest)
      /\ failures_logged bridge rest
  end.

(** The calls of [send] in a trace: channel, text and attachment. *)
Definition sent (evs : list Event)
  : list (string * string * option Attachment) :=
  flat_map (fun e => match e with
                     | DcSend c b f _ => [(c, b, f)]
                     | _ => []
                     end) evs.

(** The calls of [edit] in a trace: message id and text. *)
Definition edited (evs : list Event) : list (string * string) :=
  flat_map (fun e => match e with
                     | DcEdit i b _ => [(i, b)]
                     | _ => []
                     end) evs.

(** The calls to Discord in a trace. *)
Definition destination_calls (evs : list Event) : list Event :=
  List.filter (fun e => match e with
                        | DcSend _ _ _ _ | DcFetchMessage _ _ _ | DcEdit _ _ _ => true
                        | _ => false
                        end) evs.

(** The log lines in a trace. *)
Definition logged (evs : list Event) : list Event :=
  List.filter (fun e => match e with LogError _ _ => true | _ => false end)
    evs.

(** A message that reaches the listener for [k] has the field [k]; an edited
    message may be of any kind. *)
Definition carries (k : EventName) (m : Message) : Prop :=
  match k with
  | on_text => is_Some (text m)
  | on_photo => is_Some (photo m)
  | on_sticker => is_Some (sticker m)
  | on_document => is_Some (document m)
  | on_voice => is_Some (voice m)
  | on_audio => is_Some (audio m)
  | on_video => is_Some (video m)
  | on_new_chat_members => is_Some (new_chat_members m)
  | on_left_chat_member => is_Some (left_chat_member m)
  | on_edited_message => True
  end.

(** The display name of a user: the first name, and the last name when
    there is one. *)
Definition display_name (u : User) : string :=
  match last_name u with
  | Some l => first_name u +:+ " " +:+ l
  | None => first_name u
  end.

(** The handle of a user, or the placeholder. *)
Definition handle (u : User) : string :=
  match username u with
  | Some h => "@" +:+ h
  | None => "No username"
  end.

(** Calls made in series for the chunks of a text: the calls are calls of
    [send] to the channel for the chunks in their order, without a file,
    and a call is made only when the one before it was fulfilled. *)
Fixpoint in_series (c : string) (chunks : list string) (calls : list Event)
  {struct calls} : Prop :=
  match calls with
  | [] => True
  | e :: rest =>
      match chunks with
      | [] => False
      | chunk :: more =>
          exists r,
            e = DcSend c chunk None r
            /\ match r with
               | Fulfilled _ => in_series c more rest
               | Rejected _ => rest = []
               end
      end
  end.

(** The calls of [send] for some chunks that were all fulfilled, with the
    ids of the new Discord messages. *)
Definition fulfilled_sends (c : string) (chunks ids : list string)
  : list Event :=
  zip_with (fun chunk i => DcSend c chunk None (Fulfilled i)) chunks ids.

(** An event that cannot write to the map under the Telegram message id
    [id]: any event but a text, and a text with another message id. *)
Definition spares (id : Z) (event : EventName * TelegrafContext) : Prop :=
  fst event = on_text ->
  forall m, ctx_payload (snd event) = Some m -> message_id m <> id.

(** ** Shapes of computations *)

(** The body of a [try] block: it makes calls to the platforms only, and
    when it completes normally none of them was rejected. *)
Definition body_ok {A} (m : M A) : Prop :=
  forall w, exists evs mm,
    snd (m w) = after w evs mm
    /\ Forall (fun e => is_call e = true) evs
    /\ (forall a, fst (m w) = Normal a ->
        Forall (fun e => failed e = false) evs).

(** A handler of a bridge: it completes normally, every rejected call is
    followed by a log line of the bridge, and no rejection is left
    unhandled. *)
Definition handler_ok (b : Bridge) (m : M unit) : Prop :=
  forall w, exists evs mm,
    m w = (Normal tt, after w evs mm)
    /\ failures_logged b evs
    /\ Forall (fun e => unhandled e = false) evs.

(** A catch block of a bridge: it writes log lines of the bridge, at least
    one, and nothing else. *)
Definition catch_ok (b : Bridge) (h : JsError -> M unit) : Prop :=
  forall err, exists logs,
    logs <> [] /\ Forall (is_log_of b) logs
    /\ forall w, h err w = (Normal tt, after w logs (messageMap w)).

(** A computation that leaves the message map as it is. *)
Definition keeps_map {A} (m : M A) : Prop :=
  forall w, messageMap (snd (m w)) = messageMap w.

(** A computation that leaves the entry of one Telegram message id as it
    is. *)
Definition keeps_key {A} (id : Z) (m : M A) : Prop :=
  forall w,
    messageMap (snd (m w)) !! (TELEGRAM_TO_DISCORD, id)
    = messageMap w !! (TELEGRAM_TO_DISCORD, id).

(** ** Sample data *)

Module Sample.

(** Platforms that accept every call.  A new Discord message gets an id
    made from the number of events so far. *)
Definition env_up : Environment :=
  {| dcBot_ready := Fulfilled tt;
     dcBot_channels := fun _ => true;
     channel_send := fun h _ _ _ =>
       Fulfilled ("dc-" +:+ Js.of_number (Z.of_nat (length h)));
     channel_fetchMessage := fun _ _ _ => Fulfilled tt;
     dcMessage_edit := fun _ _ _ => Fulfilled tt;
     telegram_getFile := fun _ fileId =>
       Fulfilled {| file_path := Some ("music/" +:+ fileId +:+ ".ogg") |};
     telegram_getFileLink := fun _ fileId =>
       Fulfilled ("https://api.telegram.org/file/" +:+ fileId);
     telegram_sendMessage := fun _ _ _ _ => Fulfilled tt |}.

(** Platforms that reject every call, behind a Discord bot that is ready. *)
Definition env_down : Environment :=
  {| dcBot_ready := Fulfilled tt;
     dcBot_channels := fun _ => true;
     channel_send := fun _ _ _ _ => Rejected (Rejection "Missing Access");
     channel_fetchMessage := fun _ _ _ =>
       Rejected (Rejection "Unknown Message");
     dcMessage_edit := fun _ _ _ => Rejected (Rejection "Missing Access");
     telegram_getFile := fun _ _ => Rejected (Rejection "Bad Request");
     telegram_getFileLink := fun _ _ => Rejected (Rejection "Bad Request");
     telegram_sendMessage := fun _ _ _ _ =>
       Rejected (Rejection "Forbidden") |}.

(** Telegram gives no file, and Discord accepts every call. *)
Definition env_no_files : Environment :=
  {| dcBot_ready := Fulfilled tt;
     dcBot_channels := fun _ => true;
     channel_send := fun h _ _ _ =>
       Fulfilled ("dc-" +:+ Js.of_number (Z.of_nat (length h)));
     channel_fetchMessage := fun _ _ _ => Fulfilled tt;
     dcMessage_edit := fun _ _ _ => Fulfilled tt;
     telegram_getFile := fun _ _ => Rejected (Rejection "Bad Request");
     telegram_getFileLink := fun _ _ => Rejected (Rejection "Bad Request");
     telegram_sendMessage := fun _ _ _ _ => Fulfilled tt |}.

Definition settings_off : Settings :=
  {| skipOldMessages := false; sendEmojiWithStickers := false |}.

Definition settings_on : Settings :=
  {| skipOldMessages := false; sendEmojiWithStickers := true |}.

(** A converter: the first name of the sender, and the name in bold before
    the text. *)
Definition converter (m : Message) (b : Bridge) : MessageObj :=
  let who :=
    match from m with
    | Some u => first_name u
    | None => "Unknown"
    end in
  {| obj_from := who;
     composed := "**" +:+ who +:+ "**: " +:+ default EmptyString (text m) |}.

(** Three rows of the table of the package [mime]. *)
Definition extensions (t : option string) : option string :=
  match t with
  | Some t =>
      if String.eqb t "audio/mpeg" then Some "mp3"
      else if String.eqb t "audio/ogg" then Some "oga"
      else if String.eqb t "video/mp4" then Some "mp4"
      else None
  | None => None
  end.

Definition alice : User :=
  {| first_name := "Alice"; last_name := Some "Liddell";
     username := Some "alice" |}.

Definition bob : User :=
  {| first_name := "Bob"; last_name := None; username := None |}.

Definition tedi : User :=
  {| first_name := "Tedi"; last_name := None; username := Some "TediBot" |}.

(** A message without content. *)
Definition blank (id chat : Z) : Message :=
  {| message_id := id; chat := {| chat_id := chat |}; from := Some alice;
     text := None; caption := None; photo := None; sticker := None;
     document := None; voice := None; audio := None; video := None;
     new_chat_members := None; left_chat_member := None |}.

Definition with_text (t : string) (m : Message) : Message :=
  {| message_id := message_id m; chat := chat m; from := from m;
     text := Some t; caption := caption m; photo := photo m;
     sticker := sticker m; document := document m; voice := voice m;
     audio := audio m; video := video m;
     new_chat_members := new_chat_members m;
     left_chat_member := left_chat_member m |}.

Definition with_photo (p : list PhotoSize) (m : Message) : Message :=
  {| message_id := message_id m; chat := chat m; from := from m;
     text := text m; caption := caption m; photo := Some p;
     sticker := sticker m; document := document m; voice := voice m;
     audio := audio m; video := video m;
     new_chat_members := new_chat_members m;
     left_chat_member := left_chat_member m |}.

Definition with_sticker (s : Sticker) (m : Message) : Message :=
  {| message_id := message_id m; chat := chat m; from := from m;
     text := text m; caption := caption m; photo := photo m;
     sticker := Some s; document := document m; voice := voice m;
     audio := audio m; video := video m;
     new_chat_members := new_chat_members m;
     left_chat_member := left_chat_member m |}.

Definition with_voice (v : Voice) (m : Message) : Message :=
  {| message_id := message_id m; chat := chat m; from := from m;
     text := text m; caption := caption m; photo := photo m;
     sticker := sticker m; document := document m; voice := Some v;
     audio := audio m; video := video m;
     new_chat_members := new_chat_members m;
     left_chat_member := left_chat_member m |}.

Definition with_audio (a : Audio) (m : Message) : Message :=
  {| message_id := message_id m; chat := chat m; from := from m;
     text := text m; caption := caption m; photo := photo m;
     sticker := sticker m; document := document m; voice := voice m;
     audio := Some a; video := video m;
     new_chat_members := new_chat_members m;
     left_chat_member := left_chat_member m |}.

Definition with_members (l : list User) (m : Message) : Message :=
  {| message_id := message_id m; chat := chat m; from := from m;
     text := text m; caption := caption m; photo := photo m;
     sticker := sticker m; document := document m; voice := voice m;
     audio := audio m; video := video m;
     new_chat_members := Some l;
     left_chat_member := left_chat_member m |}.

(** A context for an ordinary message, and one for an edited message. *)
Definition incoming (m : Message) : TelegrafContext :=
  {| ctx_message := Some m; ctx_channel_post := None;
     ctx_editedMessage := None |}.

Definition incoming_edit (m : Message) : TelegrafContext :=
  {| ctx_message := None; ctx_channel_post := None;
     ctx_editedMessage := Some m |}.

Definition bridge_of (n : string) (d : Direction) (chat : Z)
  (channel : string) (flags : bool) : Bridge :=
  {| name := n; direction := d;
     telegram := {| chatId := chat; relayJoinMessages := flags;
                    relayLeaveMessages := flags;
                    bridge_sendEmojiWithStickers := flags |};
     discord := {| channelId := channel |} |}.

(** Two bridges that relay both ways, and one that relays from Discord to
    Telegram only. *)
Definition lounge : Bridge := bridge_of "lounge" DIRECTION_BOTH 1 "100" true.

Definition garden : Bridge := bridge_of "garden" DIRECTION_BOTH 2 "200" true.

Definition oneway : Bridge :=
  bridge_of "oneway" DIRECTION_DISCORD_TO_TELEGRAM 3 "300" true.

Definition bridges : gmap Z Bridge :=
  <[1%Z := lounge]> (<[2%Z := garden]> (<[3%Z := oneway]> ∅)).

(** The world at the start: nothing has happened, the map is empty, and the
    bot knows its own account. *)
Definition start : World :=
  {| trace := []; messageMap := ∅; me := Some tedi |}.

(** A text of [n] code units. *)
Fixpoint filler (n : nat) : string :=
  match n with
  | O => EmptyString
  | S k => String "x" (filler k)
  end.

End Sample.

(** ** The start of [setup] *)

(** An update of the bot, as [getUpdates] gives it. *)
Record Update := { update_id : Z }.

(** An integer as a JavaScript number, a double: the integers of less than
    54 bits are exact, and a longer one is rounded to 53 significant bits,
    to the nearest, and to the even one of two that are as near. *)
Definition number_round (z : Z) : Z :=
  let a := Z.abs z in
  if (a <? 2 ^ 53)%Z then z
  else
    let e := (Z.log2 a - 52)%Z in
    let q := (a / 2 ^ e)%Z in
    let r := (a mod 2 ^ e)%Z in
    let half := (2 ^ (e - 1))%Z in
    let q' :=
      if (r <? half)%Z then q
      else if (half <? r)%Z then (q + 1)%Z
      else if Z.even q then q else (q + 1)%Z in
    (Z.sgn z * (q' * 2 ^ e))%Z.

(** [x + y] on JavaScript numbers with integer values: the exact sum,
    rounded. *)
Definition number_add (x y : Z) : Z := number_round (x + y).

(** [clearOldMessages(tgBot)], given the promise of
    [tgBot.telegram.getUpdates(0, 100, -1)]: one more than the id of the
    last update, or 0 when there is no update.  The function is [async] and
    has no [try]: a rejection of the promise is its own. *)
Definition clearOldMessages (getUpdates : Settled (list Update)) : M Z :=
  let* updates := await getUpdates in
  ret (match last updates with
       | Some u => number_add (update_id u) 1
       | None => 0%Z
       end).

(** The offset [setup] gives to the polling: 0, or the one of
    [clearOldMessages] when the settings ask to skip the old messages. *)
Definition initialPollOffset (settings : Settings)
  (getUpdates : Settled (list Update)) : M Z :=
  if skipOldMessages settings then clearOldMessages getUpdates
  else ret 0%Z.

(** Ids in ascending order, as Telegram gives the updates. *)
Fixpoint ascending (ids : list Z) : Prop :=
  match ids with
  | [] => True
  | x :: rest => Forall (Z.lt x) rest /\ ascending rest
  end.

(** ** More ways to read a trace and a string *)

(** A call to Discord. *)
Definition to_discord (e : Event) : bool :=
  match e with
  | DcSend _ _ _ _ | DcFetchMessage _ _ _ | DcEdit _ _ _ => true
  | _ => false
  end.

(** A computation that may throw, leaves the message map as it is and
    writes only events that satisfy [P]. *)
Definition only (P : Event -> Prop) {A} (m : M A) : Prop :=
  forall w, exists evs,
    snd (m w) = after w evs (messageMap w) /\ Forall P evs.

(** A computation that completes normally, leaves the message map as it is
    and writes only events that satisfy [P]. *)
Definition calm (P : Event -> Prop) (m : M unit) : Prop :=
  forall w, exists evs,
    m w = (Normal tt, after w evs (messageMap w)) /\ Forall P evs.

(** Whether the code unit [c] occurs in [s]. *)
Fixpoint has_unit (c : ascii) (s : string) : bool :=
  match s with
  | EmptyString => false
  | String d r => Ascii.eqb d c || has_unit c r
  end.

(** More sample messages. *)
Module More.

Definition with_video (v : Video) (c : option string) (m : Message)
  : Message :=
  {| message_id := message_id m; chat := chat m; from := from m;
     text := text m; caption := c; photo := photo m;
     sticker := sticker m; document := document m; voice := voice m;
     audio := audio m; video := Some v;
     new_chat_members := new_chat_members m;
     left_chat_member := left_chat_member m |}.

Definition with_document (d : Document) (m : Message) : Message :=
  {| message_id := message_id m; chat := chat m; from := from m;
     text := text m; caption := caption m; photo := photo m;
     sticker := sticker m; document := Some d; voice := voice m;
     audio := audio m; video := video m;
     new_chat_members := new_chat_members m;
     left_chat_member := left_chat_member m |}.

Definition with_caption (c : string) (m : Message) : Message :=
  {| message_id := message_id m; chat := chat m; from := from m;
     text := text m; caption := Some c; photo := photo m;
     sticker := sticker m; document := document m; voice := voice m;
     audio := audio m; video := video m;
     new_chat_members := new_chat_members m;
     left_chat_member := left_chat_member m |}.

Definition with_left (u : User) (m : Message) : Message :=
  {| message_id := message_id m; chat := chat m; from := from m;
     text := text m; caption := caption m; photo := photo m;
     sticker := sticker m; document := document m; voice := voice m;
     audio := audio m; video := video m;
     new_chat_members := new_chat_members m;
     left_chat_member := Some u |}.

(** Discord is not ready, and would accept every call. *)
Definition env_not_ready : Environment :=
  {| dcBot_ready := Rejected (Rejection "Incorrect login details");
     dcBot_channels := dcBot_channels Sample.env_up;
     channel_send := channel_send Sample.env_up;
     channel_fetchMessage := channel_fetchMessage Sample.env_up;
     dcMessage_edit := dcMessage_edit Sample.env_up;
     telegram_getFile := telegram_getFile Sample.env_up;
     telegram_getFileLink := telegram_getFileLink Sample.env_up;
     telegram_sendMessage := telegram_sendMessage Sample.env_up |}.

(** Discord is ready and has no channel. *)
Definition env_no_channel : Environment :=
  {| dcBot_ready := Fulfilled tt;
     dcBot_channels := fun _ => false;
     channel_send := channel_send Sample.env_up;
     channel_fetchMessage := channel_fetchMessage Sample.env_up;
     dcMessage_edit := dcMessage_edit Sample.env_up;
     telegram_getFile := telegram_getFile Sample.env_up;
     telegram_getFileLink := telegram_getFileLink Sample.env_up;
     telegram_sendMessage := telegram_sendMessage Sample.env_up |}.

(** Telegram gives files without a path. *)
Definition env_no_path : Environment :=
  {| dcBot_ready := Fulfilled tt;
     dcBot_channels := fun _ => true;
     channel_send := channel_send Sample.env_up;
     channel_fetchMessage := channel_fetchMessage Sample.env_up;
     dcMessage_edit := dcMessage_edit Sample.env_up;
     telegram_getFile := fun _ _ => Fulfilled {| file_path := None |};
     telegram_getFileLink := telegram_getFileLink Sample.env_up;
     telegram_sendMessage := telegram_sendMessage Sample.env_up |}.

End More.

(** * Properties *)

(** ** Splitting a string into chunks *)

Module JsFacts.

Lemma take_drop (n : nat) (s : string) : Js.take n s +:+ Js.drop n s = s.
Proof.
  revert s. induction n as [|n IH]; intros [|c r]; try reflexivity.
  change (String c (Js.take n r +:+ Js.drop n r) = String c r).
  f_equal. apply IH.
Qed.

Lemma length_take (n : nat) (s : string) :
  String.length (Js.take n s) = Nat.min n (String.length s).
Proof.
  revert s. induction n as [|n IH]; intros [|c r]; simpl; try reflexivity.
  now rewrite IH.
Qed.

Lemma length_drop (n : nat) (s : string) :
  String.length (Js.drop n s) = String.length s - n.
Proof.
  revert s. induction n as [|n IH]; intros [|c r]; simpl; auto.
Qed.

(** One unfolding of the matcher on a string that is not empty. *)
Lemma matches_step (n f : nat) (s : string) :
  s <> EmptyString ->
  Js.matches n (S f) s = Js.take n s :: Js.matches n f (Js.drop n s).
Proof. destruct s; [congruence | reflexivity]. Qed.

Lemma matches_empty (n f : nat) : Js.matches n f EmptyString = [].
Proof. destruct f; reflexivity. Qed.

Lemma length_pos (s : string) : s <> EmptyString -> 0 < String.length s.
Proof. destruct s; [congruence | simpl; lia]. Qed.

(** The chunks, read in order, give the string back. *)
Lemma matches_concat (n : nat) :
  0 < n ->
  forall f s, String.length s <= f -> Js.concat (Js.matches n f s) = s.
Proof.
  intros Hn. induction f as [|f IH]; intros s Hlen.
  - destruct s; [reflexivity | simpl in Hlen; lia].
  - destruct (string_dec s EmptyString) as [->|Hne]; [reflexivity|].
    rewrite matches_step by assumption. simpl.
    rewrite IH; [apply take_drop|].
    rewrite length_drop. pose proof (length_pos s Hne). lia.
Qed.

(** No chunk is empty and none is longer than the limit. *)
Lemma matches_bounds (n : nat) :
  0 < n ->
  forall f s,
    Forall (fun c => 0 < String.length c <= n) (Js.matches n f s).
Proof.
  intros Hn. induction f as [|f IH]; intros s; [constructor|].
  destruct (string_dec s EmptyString) as [->|Hne]; [constructor|].
  rewrite matches_step by assumption. constructor; [|apply IH].
  rewrite length_take. pose proof (length_pos s Hne). lia.
Qed.

(** Rounding up: a string that is not empty needs one chunk more than what
    is left after the first chunk. *)
Lemma ceil_step (n len : nat) :
  0 < n -> 0 < len -> (len + n - 1) / n = S ((len - n + n - 1) / n).
Proof.
  intros Hn Hl. destruct (Nat.le_gt_cases len n) as [Hle|Hgt].
  - replace (len - n + n - 1) with (n - 1) by lia.
    rewrite (Nat.div_small (n - 1)) by lia.
    symmetry. apply Nat.div_unique with (r := len - 1); lia.
  - replace (len + n - 1) with ((len - n + n - 1) + 1 * n) by lia.
    rewrite Nat.div_add by lia. lia.
Qed.

(** The number of chunks is the length over the limit, rounded up. *)
Lemma matches_count (n : nat) :
  0 < n ->
  forall f s,
    String.length s <= f ->
    length (Js.matches n f s) = (String.length s + n - 1) / n.
Proof.
  intros Hn. induction f as [|f IH]; intros s Hlen.
  - destruct s; [|simpl in Hlen; lia]. simpl.
    symmetry. apply Nat.div_small. lia.
  - destruct (string_dec s EmptyString) as [->|Hne].
    + simpl. symmetry. apply Nat.div_small. lia.
    + rewrite matches_step by assumption. simpl.
      pose proof (length_pos s Hne) as Hpos.
      rewrite IH by (rewrite length_drop; lia).
      rewrite length_drop. symmetry. now apply ceil_step.
Qed.

(** [match_all] is [null] exactly on the empty string. *)
Lemma match_all_None (n : nat) (s : string) :
  0 < n -> (Js.match_all n s = None <-> s = EmptyString).
Proof.
  intros Hn. unfold Js.match_all. split.
  - destruct s as [|c r]; [reflexivity|]. simpl. discriminate.
  - intros ->. reflexivity.
Qed.

Lemma match_all_Some (n : nat) (s : string) (l : list string) :
  Js.match_all n s = Some l -> l = Js.matches n (String.length s) s.
Proof.
  unfold Js.match_all. destruct (Js.matches n (String.length s) s);
    [discriminate | now intros [= <-]].
Qed.

End JsFacts.

(** ** Worlds and traces *)

Lemma after_nil (w : World) : after w [] (messageMap w) = w.
Proof. destruct w. unfold after. simpl. now rewrite app_nil_r. Qed.

Lemma after_after (w : World) (e1 e2 : list Event) (m1 m2 : MessageMap) :
  after (after w e1 m1) e2 m2 = after w (e1 ++ e2) m2.
Proof. unfold after. simpl. now rewrite app_assoc. Qed.

Lemma set_trace_after (w : World) (evs : list Event) :
  set_trace (trace w ++ evs) w = after w evs (messageMap w).
Proof. reflexivity. Qed.

Lemma set_messageMap_after (w : World) (mm : MessageMap) :
  set_messageMap mm w = after w [] mm.
Proof. unfold set_messageMap, after. now rewrite app_nil_r. Qed.

Lemma failures_logged_app (b : Bridge) (e1 e2 : list Event) :
  failures_logged b e1 -> failures_logged b e2 ->
  failures_logged b (e1 ++ e2).
Proof.
  induction e1 as [|e e1 IH]; simpl; [auto|].
  intros [Hhead Hrest] H2. split; [|now apply IH].
  intros Hf. apply Exists_app. left. now apply Hhead.
Qed.

(** Calls that all settled well need no log line. *)
Lemma failures_logged_clean (b : Bridge) (evs : list Event) :
  Forall (fun e => failed e = false) evs -> failures_logged b evs.
Proof.
  induction 1 as [|e evs He _ IH]; simpl; [exact I|].
  split; [congruence | exact IH].
Qed.

(** Calls followed by log lines of the bridge: all failures are logged. *)
Lemma failures_logged_then_log (b : Bridge) (evs logs : list Event) :
  Forall (fun e => is_call e = true) evs ->
  logs <> [] -> Forall (is_log_of b) logs ->
  failures_logged b (evs ++ logs).
Proof.
  intros _ Hne Hlogs. induction evs as [|e evs IH]; simpl.
  - apply failures_logged_clean.
    eapply Forall_impl; [exact Hlogs|].
    intros e (rest & args & ->). reflexivity.
  - split; [|exact IH]. intros _. apply Exists_app. right.
    destruct logs as [|l logs]; [congruence|].
    apply Exists_cons_hd. now inversion Hlogs.
Qed.

Lemma calls_not_unhandled (evs : list Event) :
  Forall (fun e => is_call e = true) evs ->
  Forall (fun e => unhandled e = false) evs.
Proof.
  intros H. eapply Forall_impl; [exact H|].
  intros [] He; try reflexivity; discriminate.
Qed.

Lemma logs_not_unhandled (b : Bridge) (evs : list Event) :
  Forall (is_log_of b) evs -> Forall (fun e => unhandled e = false) evs.
Proof.
  intros H. eapply Forall_impl; [exact H|].
  intros e (rest & args & ->). reflexivity.
Qed.

(** ** Composing computations *)

Create HintDb relay.

Lemma body_ok_ret {A} (a : A) : body_ok (ret a).
Proof.
  intros w. exists [], (messageMap w). simpl.
  split; [symmetry; apply after_nil|]. split; [constructor|]. constructor.
Qed.

Lemma body_ok_throw {A} (e : JsError) : body_ok (@throw A e).
Proof.
  intros w. exists [], (messageMap w). simpl.
  split; [symmetry; apply after_nil|]. split; [constructor|]. discriminate.
Qed.

Lemma body_ok_bind {A B} (m : M A) (k : A -> M B) :
  body_ok m -> (forall a, body_ok (k a)) -> body_ok (bind m k).
Proof.
  intros Hm Hk w. unfold bind.
  destruct (Hm w) as (e1 & m1 & Hw & Hc1 & Hf1).
  destruct (m w) as [[a|err] w1] eqn:Hrun; simpl in *; subst w1.
  - destruct (Hk a (after w e1 m1)) as (e2 & m2 & Hw2 & Hc2 & Hf2).
    exists (e1 ++ e2), m2. rewrite Hw2, after_after.
    split; [reflexivity|]. split; [now apply Forall_app|].
    intros b Hb. apply Forall_app. split; [now apply (Hf1 a) | now apply (Hf2 b)].
  - exists e1, m1. simpl. split; [reflexivity|]. split; [assumption|].
    discriminate.
Qed.

Lemma body_ok_await {A} (p : Settled A) : body_ok (await p).
Proof. destruct p; [apply body_ok_ret | apply body_ok_throw]. Qed.

Lemma body_ok_defined {A} (o : option A) (what : string) :
  body_ok (defined o what).
Proof. destruct o; [apply body_ok_ret | apply body_ok_throw]. Qed.

Lemma body_ok_for_of {A S} (l : list A) (body : S -> A -> M S) (s : S) :
  (forall s x, body_ok (body s x)) -> body_ok (for_of l body s).
Proof.
  intros Hbody. revert s. induction l as [|x l IH]; intros s; simpl.
  - apply body_ok_ret.
  - apply body_ok_bind; [apply Hbody | intros s'; apply IH].
Qed.

Lemma body_ok_insert (d : MapDirection) (i : Z) (v : string) :
  body_ok (messageMap_insert d i v).
Proof.
  intros w. exists [], (<[(d, i) := v]> (messageMap w)). simpl.
  split; [apply set_messageMap_after|]. split; constructor.
Qed.

Lemma body_ok_getCorresponding (d : MapDirection) (i : Z) :
  body_ok (messageMap_getCorresponding d i).
Proof.
  intros w. exists [], (messageMap w). unfold messageMap_getCorresponding.
  destruct (messageMap w !! (d, i)); simpl;
    (split; [symmetry; apply after_nil|]); split; constructor.
Qed.

(** A call that is awaited at once: the one event is a call, and it was not
    rejected when the await completes normally. *)
Lemma body_ok_call {A} (answer : list Event -> Settled A)
  (record : Settled A -> Event) :
  (forall r, is_call (record r) = true) ->
  (forall a, failed (record (Fulfilled a)) = false) ->
  body_ok (let* p := perform answer record in await p).
Proof.
  intros Hcall Hok w. unfold bind, perform.
  exists [record (answer (trace w))], (messageMap w).
  destruct (answer (trace w)) as [a|e] eqn:Hans; simpl.
  - split; [reflexivity|]. split; [repeat constructor; apply Hcall|].
    intros _ _. repeat constructor. apply Hok.
  - split; [reflexivity|]. split; [repeat constructor; apply Hcall|].
    discriminate.
Qed.

Lemma perform_run {A} (answer : list Event -> Settled A)
  (record : Settled A -> Event) (w : World) :
  perform answer record w
  = (Normal (answer (trace w)),
     after w [record (answer (trace w))] (messageMap w)).
Proof. reflexivity. Qed.

Lemma emit_run (e : Event) (w : World) :
  emit e w = (Normal tt, after w [e] (messageMap w)).
Proof. reflexivity. Qed.

Lemma trace_after (w : World) (evs : list Event) (mm : MessageMap) :
  trace (after w evs mm) = trace w ++ evs.
Proof. reflexivity. Qed.

Lemma messageMap_after (w : World) (evs : list Event) (mm : MessageMap) :
  messageMap (after w evs mm) = mm.
Proof. reflexivity. Qed.

Lemma me_after (w : World) (evs : list Event) (mm : MessageMap) :
  me (after w evs mm) = me w.
Proof. reflexivity. Qed.

(** Two calls started together and awaited together, as with
    [Promise.all]. *)
Lemma body_ok_all {A B C} (answer1 : list Event -> Settled A)
  (record1 : Settled A -> Event) (answer2 : list Event -> Settled B)
  (record2 : Settled B -> Event) (k : A -> B -> M C) :
  (forall r, is_call (record1 r) = true) ->
  (forall r, is_call (record2 r) = true) ->
  (forall a, failed (record1 (Fulfilled a)) = false) ->
  (forall a, failed (record2 (Fulfilled a)) = false) ->
  (forall a b, body_ok (k a b)) ->
  body_ok (let* p1 := perform answer1 record1 in
           let* p2 := perform answer2 record2 in
           let* x := await p1 in
           let* y := await p2 in
           k x y).
Proof.
  intros Hc1 Hc2 Hf1 Hf2 Hk w. unfold bind.
  rewrite !perform_run, trace_after, messageMap_after, after_after.
  set (r1 := answer1 (trace w)).
  set (r2 := answer2 (trace w ++ [record1 r1])).
  assert (Hcalls : Forall (fun e => is_call e = true) [record1 r1; record2 r2])
    by (repeat constructor; [apply Hc1 | apply Hc2]).
  destruct r1 as [a|e1]; simpl.
  - destruct r2 as [b|e2]; simpl.
    + destruct (Hk a b (after w [record1 (Fulfilled a); record2 (Fulfilled b)]
                          (messageMap w)))
        as (evs & mm & Hw & Hc & Hf).
      exists ([record1 (Fulfilled a); record2 (Fulfilled b)] ++ evs), mm.
      rewrite after_after in Hw.
      split; [exact Hw|]. split; [apply Forall_app; now split|].
      intros c Hn. apply Forall_app. split; [|now apply (Hf c)].
      repeat constructor; [apply Hf1 | apply Hf2].
    + exists [record1 (Fulfilled a); record2 (Rejected e2)], (messageMap w).
      split; [reflexivity|]. split; [assumption | discriminate].
  - exists [record1 (Rejected e1); record2 r2], (messageMap w).
    split; [reflexivity|]. split; [assumption | discriminate].
Qed.

Lemma handler_ok_ret (b : Bridge) : handler_ok b (ret tt).
Proof.
  intros w. exists [], (messageMap w). rewrite after_nil.
  split; [reflexivity|]. split; [exact I | constructor].
Qed.

(** A [try] block whose catch block logs for the bridge. *)
Lemma handler_ok_try (b : Bridge) (body : M unit) (h : JsError -> M unit) :
  body_ok body -> catch_ok b h -> handler_ok b (tryCatch body h).
Proof.
  intros Hbody Hcatch w. unfold tryCatch.
  destruct (Hbody w) as (evs & mm & Hw & Hcalls & Hclean).
  destruct (body w) as [[[]|err] w1] eqn:Hrun; simpl in *; subst w1.
  - exists evs, mm. split; [reflexivity|].
    split; [apply failures_logged_clean; now apply (Hclean tt)|].
    now apply calls_not_unhandled.
  - destruct (Hcatch err) as (logs & Hne & Hlogs & Hh).
    exists (evs ++ logs), mm. rewrite Hh, after_after.
    split; [reflexivity|].
    split; [now apply failures_logged_then_log|].
    apply Forall_app. split; [now apply calls_not_unhandled|].
    now apply (logs_not_unhandled b).
Qed.

Lemma handler_ok_async (b : Bridge) (m : M unit) :
  handler_ok b m -> handler_ok b (async m).
Proof.
  intros Hm w. destruct (Hm w) as (evs & mm & Hrun & Hrest).
  exists evs, mm. unfold async. rewrite Hrun. now split.
Qed.

Lemma handler_ok_forEach {A} (b : Bridge) (l : list A) (f : A -> M unit) :
  (forall x, handler_ok b (f x)) -> handler_ok b (forEach l f).
Proof.
  intros Hf. induction l as [|x l IH]; simpl; [apply handler_ok_ret|].
  intros w. unfold bind.
  destruct (Hf x w) as (e1 & m1 & -> & Hl1 & Hu1).
  destruct (IH (after w e1 m1)) as (e2 & m2 & -> & Hl2 & Hu2).
  exists (e1 ++ e2), m2. rewrite after_after.
  split; [reflexivity|].
  split; [now apply failures_logged_app | now apply Forall_app].
Qed.

(** A catch block that writes one log line with the tag of the bridge. *)
Lemma catch_ok_log (b : Bridge) (line : string) (args : JsError -> list LogArg) :
  catch_ok b (fun err => logger_error (tag b +:+ line) (args err)).
Proof.
  intros err. exists [LogError (tag b +:+ line) (args err)].
  split; [discriminate|]. split; [|reflexivity].
  repeat constructor. now exists line, (args err).
Qed.

Lemma catch_ok_log2 (b : Bridge) (l1 l2 : string)
  (a1 a2 : JsError -> list LogArg) :
  catch_ok b (fun err =>
                let* _ := logger_error (tag b +:+ l1) (a1 err) in
                logger_error (tag b +:+ l2) (a2 err)).
Proof.
  intros err.
  exists [LogError (tag b +:+ l1) (a1 err); LogError (tag b +:+ l2) (a2 err)].
  split; [discriminate|]. split.
  - repeat constructor; [now exists l1, (a1 err) | now exists l2, (a2 err)].
  - intros w. unfold bind, logger_error, emit, after. simpl.
    now rewrite <- app_assoc.
Qed.

(** ** The handlers catch and log *)

Section Isolation.

Variable env : Environment.
Variable settings : Settings.
Variable messageConverter : Message -> Bridge -> MessageObj.
Variable getExtension : option string -> option string.

Lemma body_ok_send (channel : option string) (body : string)
  (file : option Attachment) :
  body_ok (send env channel body file).
Proof.
  unfold send. apply body_ok_bind; [apply body_ok_defined|].
  intros c. apply body_ok_call; reflexivity.
Qed.

Lemma body_ok_fetchMessage (channel : option string) (id : string) :
  body_ok (fetchMessage env channel id).
Proof.
  unfold fetchMessage. apply body_ok_bind; [apply body_ok_defined|].
  intros c.
  change (body_ok
            (let* u := (let* p := perform
                                    (fun h => channel_fetchMessage env h c id)
                                    (DcFetchMessage c id) in await p) in
             ret id)).
  apply body_ok_bind; [apply body_ok_call; reflexivity|].
  intros _. apply body_ok_ret.
Qed.

Lemma body_ok_edit (dcMessage body : string) :
  body_ok (edit env dcMessage body).
Proof. unfold edit. apply body_ok_call; reflexivity. Qed.

Lemma body_ok_sendFile (b : Bridge) (arg : FileArg) :
  body_ok (sendFile env messageConverter b arg).
Proof.
  unfold sendFile. apply body_ok_bind; [apply body_ok_await|].
  intros _. apply body_ok_all; try reflexivity.
  intros file fileLink. apply body_ok_bind.
  - destruct (default false (arg_resolveExtension arg)); [|apply body_ok_ret].
    apply body_ok_bind; [apply body_ok_defined|].
    intros path. apply body_ok_ret.
  - intros extension. apply body_ok_bind; [apply body_ok_send|].
    intros _. apply body_ok_ret.
Qed.

Lemma body_ok_text (m : Message) (b : Bridge) :
  body_ok
    (let* _ := await_ready env in
     let chunks :=
       Js.match_all DISCORD_LIMIT (composed (messageConverter m b)) in
     let channel := channels_get env (channelId (discord b)) in
     let* chunks := defined chunks "chunks is not iterable" in
     let* dcMessage :=
       for_of chunks
         (fun _ chunk =>
            let* i := send env channel chunk None in ret (Some i))
         None in
     let* dcMessage := defined dcMessage
                         "Cannot read property 'id' of null" in
     messageMap_insert TELEGRAM_TO_DISCORD (message_id m) dcMessage).
Proof.
  apply body_ok_bind; [apply body_ok_await|]. intros _. cbv zeta.
  apply body_ok_bind; [apply body_ok_defined|]. intros chunks.
  apply body_ok_bind.
  - apply body_ok_for_of. intros s chunk.
    apply body_ok_bind; [apply body_ok_send | intros i; apply body_ok_ret].
  - intros dcMessage. apply body_ok_bind; [apply body_ok_defined|].
    intros i. apply body_ok_insert.
Qed.

#[local] Hint Resolve body_ok_ret body_ok_throw body_ok_await
  body_ok_defined body_ok_send body_ok_fetchMessage body_ok_edit
  body_ok_sendFile body_ok_getCorresponding body_ok_insert
  handler_ok_ret handler_ok_async catch_ok_log catch_ok_log2 : relay.

(** Inside a [try] block the reads of a field come before the file sender. *)
Lemma body_ok_bind_defined {A B} (o : option A) (what : string)
  (k : A -> M B) :
  (forall a, body_ok (k a)) -> body_ok (let* a := defined o what in k a).
Proof. intros Hk. apply body_ok_bind; auto with relay. Qed.

(** Every handler of [setup], on a message that has the field of its event:
    the call completes normally, whatever the platforms answer. *)
Lemma relay_handler_ok (k : EventName) (m : Message) (b : Bridge) :
  carries k m ->
  handler_ok b (relay env settings messageConverter getExtension k m b).
Proof.
  destruct k; simpl; intros Hfield.
  - apply handler_ok_async. unfold text_handler.
    apply handler_ok_try; [apply body_ok_text | apply catch_ok_log2].
  - apply handler_ok_async, handler_ok_try; [|apply catch_ok_log].
    repeat (apply body_ok_bind_defined; intros ?). apply body_ok_sendFile.
  - apply handler_ok_async, handler_ok_try; [|apply catch_ok_log].
    repeat (apply body_ok_bind_defined; intros ?). apply body_ok_sendFile.
  - apply handler_ok_async. unfold document_handler.
    destruct Hfield as [doc ->]. unfold bind at 1. simpl.
    apply handler_ok_try; [apply body_ok_sendFile | apply catch_ok_log].
  - apply handler_ok_async, handler_ok_try; [|apply catch_ok_log].
    repeat (apply body_ok_bind_defined; intros ?). apply body_ok_sendFile.
  - apply handler_ok_async, handler_ok_try; [|apply catch_ok_log].
    repeat (apply body_ok_bind_defined; intros ?). apply body_ok_sendFile.
  - apply handler_ok_async, handler_ok_try; [|apply catch_ok_log].
    repeat (apply body_ok_bind_defined; intros ?). apply body_ok_sendFile.
  - unfold new_chat_members_handler.
    destruct (relayJoinMessages (telegram b)); simpl; [|apply handler_ok_ret].
    destruct Hfield as [users ->]. unfold bind at 1. simpl.
    apply handler_ok_forEach. intros user.
    apply handler_ok_async, handler_ok_try; [|apply catch_ok_log].
    apply body_ok_bind; [apply body_ok_await|]. intros _.
    apply body_ok_bind; [apply body_ok_send | intros; apply body_ok_ret].
  - apply handler_ok_async. unfold left_chat_member_handler.
    destruct (relayLeaveMessages (telegram b)); simpl; [|apply handler_ok_ret].
    destruct Hfield as [user ->]. unfold bind at 1. simpl.
    apply handler_ok_try; [|apply catch_ok_log].
    apply body_ok_bind; [apply body_ok_await|]. intros _.
    apply body_ok_bind; [apply body_ok_send | intros; apply body_ok_ret].
  - apply handler_ok_async, handler_ok_try; [|apply catch_ok_log].
    apply body_ok_bind; [apply body_ok_await|]. intros _.
    apply body_ok_bind; [apply body_ok_getCorresponding|]. intros i.
    apply body_ok_bind; [apply body_ok_fetchMessage|]. intros d.
    apply body_ok_edit.
Qed.

End Isolation.

(** ** Who writes to the message map *)

Lemma keeps_map_ret {A} (a : A) : keeps_map (ret a).
Proof. intros w. reflexivity. Qed.

Lemma keeps_map_throw {A} (e : JsError) : keeps_map (@throw A e).
Proof. intros w. reflexivity. Qed.

Lemma keeps_map_bind {A B} (m : M A) (k : A -> M B) :
  keeps_map m -> (forall a, keeps_map (k a)) -> keeps_map (bind m k).
Proof.
  intros Hm Hk w. unfold bind. specialize (Hm w).
  destruct (m w) as [[a|e] w1]; simpl in *; [|exact Hm].
  now rewrite Hk.
Qed.

Lemma keeps_map_tryCatch {A} (m : M A) (h : JsError -> M A) :
  keeps_map m -> (forall e, keeps_map (h e)) -> keeps_map (tryCatch m h).
Proof.
  intros Hm Hh w. unfold tryCatch. specialize (Hm w).
  destruct (m w) as [[a|e] w1]; simpl in *; [exact Hm|].
  now rewrite Hh.
Qed.

Lemma keeps_map_emit (e : Event) : keeps_map (emit e).
Proof. intros w. reflexivity. Qed.

Lemma keeps_map_log (line : string) (args : list LogArg) :
  keeps_map (logger_error line args).
Proof. apply keeps_map_emit. Qed.

Lemma keeps_map_perform {A} (answer : list Event -> Settled A)
  (record : Settled A -> Event) : keeps_map (perform answer record).
Proof. intros w. reflexivity. Qed.

Lemma keeps_map_await {A} (p : Settled A) : keeps_map (await p).
Proof. destruct p; [apply keeps_map_ret | apply keeps_map_throw]. Qed.

Lemma keeps_map_defined {A} (o : option A) (what : string) :
  keeps_map (defined o what).
Proof. destruct o; [apply keeps_map_ret | apply keeps_map_throw]. Qed.

Lemma keeps_map_async (m : M unit) : keeps_map m -> keeps_map (async m).
Proof.
  intros Hm w. unfold async. specialize (Hm w).
  destruct (m w) as [[a|e] w1]; simpl in *; exact Hm.
Qed.

Lemma keeps_map_forEach {A} (l : list A) (f : A -> M unit) :
  (forall x, keeps_map (f x)) -> keeps_map (forEach l f).
Proof.
  intros Hf. induction l as [|x l IH]; simpl; [apply keeps_map_ret|].
  apply keeps_map_bind; [apply Hf | intros _; exact IH].
Qed.

Lemma keeps_map_for_of {A S} (l : list A) (body : S -> A -> M S) (s : S) :
  (forall s x, keeps_map (body s x)) -> keeps_map (for_of l body s).
Proof.
  intros Hbody. revert s. induction l as [|x l IH]; intros s; simpl.
  - apply keeps_map_ret.
  - apply keeps_map_bind; [apply Hbody | intros s'; apply IH].
Qed.

Lemma keeps_map_getCorresponding (d : MapDirection) (i : Z) :
  keeps_map (messageMap_getCorresponding d i).
Proof.
  intros w. unfold messageMap_getCorresponding.
  now destruct (messageMap w !! (d, i)).
Qed.

Lemma keeps_key_of_map {A} (id : Z) (m : M A) : keeps_map m -> keeps_key id m.
Proof. intros Hm w. now rewrite Hm. Qed.

Lemma keeps_key_bind {A B} (id : Z) (m : M A) (k : A -> M B) :
  keeps_key id m -> (forall a, keeps_key id (k a)) -> keeps_key id (bind m k).
Proof.
  intros Hm Hk w. unfold bind. specialize (Hm w).
  destruct (m w) as [[a|e] w1]; simpl in *; [|exact Hm].
  now rewrite Hk.
Qed.

Lemma keeps_key_tryCatch {A} (id : Z) (m : M A) (h : JsError -> M A) :
  keeps_key id m -> (forall e, keeps_key id (h e)) ->
  keeps_key id (tryCatch m h).
Proof.
  intros Hm Hh w. unfold tryCatch. specialize (Hm w).
  destruct (m w) as [[a|e] w1]; simpl in *; [exact Hm|].
  now rewrite Hh.
Qed.

Lemma keeps_key_async (id : Z) (m : M unit) :
  keeps_key id m -> keeps_key id (async m).
Proof.
  intros Hm w. unfold async. specialize (Hm w).
  destruct (m w) as [[a|e] w1]; simpl in *; exact Hm.
Qed.

(** An insertion under another message id leaves the entry alone. *)
Lemma keeps_key_insert (id other : Z) (v : string) :
  other <> id -> keeps_key id (messageMap_insert TELEGRAM_TO_DISCORD other v).
Proof.
  intros Hne w. unfold messageMap_insert. simpl.
  apply lookup_insert_ne. congruence.
Qed.

#[local] Hint Resolve keeps_map_ret keeps_map_throw keeps_map_emit
  keeps_map_log keeps_map_perform keeps_map_await keeps_map_defined
  keeps_map_getCorresponding : relay.

(** Splits a computation into its steps and settles each of them. *)
Ltac keeps :=
  repeat first
    [ progress auto with relay
    | apply keeps_map_bind; [|intros ?]
    | apply keeps_map_tryCatch; [|intros ?]
    | apply keeps_map_async
    | apply keeps_map_forEach; intros ?
    | apply keeps_map_for_of; intros ? ? ].

Section Store.

Variable env : Environment.
Variable settings : Settings.
Variable messageConverter : Message -> Bridge -> MessageObj.
Variable getExtension : option string -> option string.

Lemma keeps_map_send (channel : option string) (body : string)
  (file : option Attachment) : keeps_map (send env channel body file).
Proof. unfold send. keeps. Qed.

Lemma keeps_map_sendFile (b : Bridge) (arg : FileArg) :
  keeps_map (sendFile env messageConverter b arg).
Proof.
  unfold sendFile, await_ready.
  destruct (default false (arg_resolveExtension arg)); keeps.
Qed.

#[local] Hint Resolve keeps_map_send keeps_map_sendFile : relay.

(** The handlers other than the one for text never write to the map. *)
Lemma relay_keeps_map (k : EventName) (m : Message) (b : Bridge) :
  k <> on_text ->
  keeps_map (relay env settings messageConverter getExtension k m b).
Proof.
  destruct k; intros Hk; try congruence; simpl;
    unfold photo_handler, sticker_handler, document_handler, voice_handler,
      audio_handler, video_handler, new_chat_members_handler,
      left_chat_member_handler, edited_message_handler, notify_join,
      fetchMessage, edit, await_ready;
    repeat match goal with
      | |- context [if ?c then _ else _] => destruct c
      end;
    keeps.
Qed.

(** The handler for text writes under the id of its own message only. *)
Lemma text_keeps_key (id : Z) (m : Message) (b : Bridge) :
  message_id m <> id ->
  keeps_key id (text_handler env messageConverter m b).
Proof.
  intros Hne. unfold text_handler, await_ready.
  apply keeps_key_tryCatch; [|intros e; apply keeps_key_of_map; keeps].
  apply keeps_key_bind; [apply keeps_key_of_map; keeps|]. intros _.
  cbv zeta.
  apply keeps_key_bind; [apply keeps_key_of_map; keeps|]. intros chunks.
  apply keeps_key_bind.
  - apply keeps_key_of_map. keeps.
  - intros d. apply keeps_key_bind; [apply keeps_key_of_map; keeps|].
    intros i. now apply keeps_key_insert.
Qed.

End Store.

(** ** Examples *)

Example split_path : Js.pop (Js.split "." "music/file_5.tar.mp3") = "mp3".
Proof. reflexivity. Qed.

Example split_no_dot : Js.pop (Js.split "." "voice") = "voice".
Proof. reflexivity. Qed.

Example lower_mixed : Js.toLowerCase "@TediBot ChatInfo" = "@tedibot chatinfo".
Proof. reflexivity. Qed.

Example match_all_small :
  Js.match_all 3 "abcdefgh" = Some ["abc"; "def"; "gh"].
Proof. reflexivity. Qed.

Example match_all_empty : Js.match_all DISCORD_LIMIT EmptyString = None.
Proof. reflexivity. Qed.

(** ** The wrapper of the handlers *)

Lemma bind_defined_run {A B} (a : A) (what : string) (k : A -> M B)
  (w : World) :
  bind (defined (Some a) what) k w = k a w.
Proof. reflexivity. Qed.

Lemma bind_run {A B} (m : M A) (k : A -> M B) (w w' : World) (a : A) :
  m w = (Normal a, w') -> bind m k w = k a w'.
Proof. intros H. unfold bind. now rewrite H. Qed.

Lemma bind_throw_run {A B} (m : M A) (k : A -> M B) (w w' : World)
  (e : JsError) :
  m w = (Throw e, w') -> bind m k w = (Throw e, w').
Proof. intros H. unfold bind. now rewrite H. Qed.

Section Wrapper.

Variable env : Environment.

(** The wrapper on a request for chat info: one answer to the chat. *)
Lemma wrapper_chatinfo (bridgeMap : gmap Z Bridge)
  (func : Message -> Bridge -> M unit) (ctx : TelegrafContext)
  (m : Message) (w : World) :
  ctx_payload ctx = Some m ->
  is_chatinfo (me w) m = true ->
  createMessageHandler env bridgeMap func ctx w
  = let id := chat_id (chat m) in
    let body := "chatID: " +:+ Js.of_number id in
    let r := telegram_sendMessage env (trace w) id body None in
    (Normal tt,
     after w
       (TgSendMessage id body None r
        :: match r with
           | Fulfilled _ => []
           | Rejected err => [UnhandledRejection err]
           end)
       (messageMap w)).
Proof.
  intros Hp Hc. unfold createMessageHandler.
  rewrite Hp, bind_defined_run, Hc.
  unfold bind, sendMessage. rewrite perform_run.
  destruct (telegram_sendMessage env (trace w) _ _ None) as [[]|err]; simpl.
  - reflexivity.
  - now rewrite emit_run, after_after.
Qed.

(** The wrapper on any other message from a chat without a bridge: the
    advisory notice, and a log line when the notice is rejected. *)
Lemma wrapper_no_bridge (bridgeMap : gmap Z Bridge)
  (func : Message -> Bridge -> M unit) (ctx : TelegrafContext)
  (m : Message) (w : World) :
  ctx_payload ctx = Some m ->
  is_chatinfo (me w) m = false ->
  fromTelegramChatId bridgeMap (chat_id (chat m)) = None ->
  createMessageHandler env bridgeMap func ctx w
  = let id := chat_id (chat m) in
    let r := telegram_sendMessage env (trace w) id ADVISORY (Some "markdown") in
    (Normal tt,
     after w
       (TgSendMessage id ADVISORY (Some "markdown") r
        :: match r with
           | Fulfilled _ => []
           | Rejected err =>
               [LogError
                  "Could not tell user to get their own TediCross instance:"
                  [ArgErr err; ArgMessage m]]
           end)
       (messageMap w)).
Proof.
  intros Hp Hc Hb. unfold createMessageHandler.
  rewrite Hp, bind_defined_run, Hc, Hb.
  unfold bind, sendMessage. rewrite perform_run.
  destruct (telegram_sendMessage env (trace w) _ _ _) as [[]|err]; simpl.
  - reflexivity.
  - unfold logger_error. now rewrite emit_run, after_after.
Qed.

(** The wrapper on any other message from a chat with a bridge: the handler
    is called unless the bridge relays from Discord to Telegram only. *)
Lemma wrapper_bridge (bridgeMap : gmap Z Bridge)
  (func : Message -> Bridge -> M unit) (ctx : TelegrafContext)
  (m : Message) (b : Bridge) (w : World) :
  ctx_payload ctx = Some m ->
  is_chatinfo (me w) m = false ->
  fromTelegramChatId bridgeMap (chat_id (chat m)) = Some b ->
  createMessageHandler env bridgeMap func ctx w
  = if decide (direction b = DIRECTION_DISCORD_TO_TELEGRAM)
    then (Normal tt, w)
    else func m b w.
Proof.
  intros Hp Hc Hb. unfold createMessageHandler.
  rewrite Hp, bind_defined_run, Hc, Hb.
  repeat case_decide; try reflexivity; tauto.
Qed.

End Wrapper.

(** C9: a text that is the chat info command addressed to the bot by its
    name, in any mix of upper and lower case, is answered in the same chat
    with [chatID: ] followed by the chat id.  The outcome does not depend on
    the registry of bridges nor on the wrapped handler: no bridge is looked
    up, nothing is relayed, and the chat may or may not have a bridge. *)
Theorem chatinfo_is_answered (env : Environment) (bridgeMap : gmap Z Bridge)
  (func : Message -> Bridge -> M unit) (ctx : TelegrafContext)
  (m : Message) (t : string) (bot : User) (w : World) :
  ctx_payload ctx = Some m ->
  text m = Some t ->
  me w = Some bot ->
  Js.toLowerCase t
  = Js.toLowerCase ("@" +:+ Js.of_undefined (username bot) +:+ " chatinfo") ->
  let id := chat_id (chat m) in
  let r :=
    telegram_sendMessage env (trace w) id ("chatID: " +:+ Js.of_number id)
      None in
  createMessageHandler env bridgeMap func ctx w
  = (Normal tt,
     after w
       (TgSendMessage id ("chatID: " +:+ Js.of_number id) None r
        :: match r with
           | Fulfilled _ => []
           | Rejected err => [UnhandledRejection err]
           end)
       (messageMap w)).
Proof.
  intros Hp Ht Hme Hlow id r.
  apply wrapper_chatinfo; [exact Hp|].
  unfold is_chatinfo. rewrite Ht, Hme, Hlow. apply String.eqb_refl.
Qed.

Lemma chatinfo_is_answered_witness :
  let m := Sample.with_text "@tedibot ChatInfo" (Sample.blank 7 (-1001234)) in
  createMessageHandler Sample.env_up Sample.bridges
    (relay Sample.env_up Sample.settings_off Sample.converter
       Sample.extensions on_text)
    (Sample.incoming m) Sample.start
  = (Normal tt,
     after Sample.start
       [TgSendMessage (-1001234) "chatID: -1001234" None (Fulfilled tt)]
       ∅).
Proof.
  intros m.
  exact (chatinfo_is_answered Sample.env_up Sample.bridges _
           (Sample.incoming m) m "@tedibot ChatInfo" Sample.tedi Sample.start
           eq_refl eq_refl eq_refl eq_refl).
Defined.

(** The name of the bot is the one in [tgBot.telegram.me]: as long as
    [getMe] has not answered, no text is taken for the command. *)
Example chatinfo_needs_me :
  let m := Sample.with_text "@TediBot chatinfo" (Sample.blank 7 42) in
  let w := {| trace := []; messageMap := ∅; me := None |} in
  trace (snd (listener Sample.env_up Sample.settings_off Sample.converter
                Sample.extensions Sample.bridges on_text (Sample.incoming m)
                w))
  = [TgSendMessage 42 ADVISORY (Some "markdown") (Fulfilled tt)].
Proof. vm_compute. reflexivity. Qed.

(** C3, as stated, fails: a chat info command from a chat without a bridge
    is answered with the chat id, and no advisory notice is sent. *)
Lemma unbridged_chatinfo_gets_no_advisory :
  let m := Sample.with_text "@TediBot chatinfo" (Sample.blank 7 42) in
  let w :=
    snd (listener Sample.env_up Sample.settings_off Sample.converter
           Sample.extensions Sample.bridges on_text (Sample.incoming m)
           Sample.start) in
  fromTelegramChatId Sample.bridges (chat_id (chat m)) = None
  /\ trace w = [TgSendMessage 42 "chatID: 42" None (Fulfilled tt)]
  /\ ~ In (TgSendMessage 42 ADVISORY (Some "markdown") (Fulfilled tt))
        (trace w).
Proof.
  intros m w. split; [reflexivity|].
  assert (Ht : trace w = [TgSendMessage 42 "chatID: 42" None (Fulfilled tt)])
    by (vm_compute; reflexivity).
  split; [exact Ht|]. rewrite Ht. intros [H|[]]. discriminate H.
Qed.

(** C3, amended: an event that is not the chat info command and whose chat
    has no bridge gets exactly one advisory notice, sent to its chat with
    the fixed text; the wrapped handler is not called, whatever it is; and
    when the notice is rejected, the error is logged and the wrapper
    completes normally. *)
Theorem unbridged_chat_gets_advisory (env : Environment)
  (bridgeMap : gmap Z Bridge) (func : Message -> Bridge -> M unit)
  (ctx : TelegrafContext) (m : Message) (w : World) :
  ctx_payload ctx = Some m ->
  is_chatinfo (me w) m = false ->
  fromTelegramChatId bridgeMap (chat_id (chat m)) = None ->
  let id := chat_id (chat m) in
  let r := telegram_sendMessage env (trace w) id ADVISORY (Some "markdown") in
  createMessageHandler env bridgeMap func ctx w
  = (Normal tt,
     after w
       (TgSendMessage id ADVISORY (Some "markdown") r
        :: match r with
           | Fulfilled _ => []
           | Rejected err =>
               [LogError
                  "Could not tell user to get their own TediCross instance:"
                  [ArgErr err; ArgMessage m]]
           end)
       (messageMap w)).
Proof. intros Hp Hc Hb id r. now apply wrapper_no_bridge. Qed.

Lemma unbridged_chat_gets_advisory_witness :
  let m := Sample.with_text "hello" (Sample.blank 7 42) in
  createMessageHandler Sample.env_down Sample.bridges
    (relay Sample.env_down Sample.settings_off Sample.converter
       Sample.extensions on_text)
    (Sample.incoming m) Sample.start
  = (Normal tt,
     after Sample.start
       [TgSendMessage 42 ADVISORY (Some "markdown")
          (Rejected (Rejection "Forbidden"));
        LogError "Could not tell user to get their own TediCross instance:"
          [ArgErr (Rejection "Forbidden"); ArgMessage m]]
       ∅).
Proof.
  intros m.
  exact (unbridged_chat_gets_advisory Sample.env_down Sample.bridges _
           (Sample.incoming m) m Sample.start eq_refl eq_refl eq_refl).
Defined.

(** C4: an event whose bridge relays from Discord to Telegram only is
    dropped.  The world is left as it was, so no notice is sent and nothing
    is logged; and this is so whatever the wrapped handler is, so the
    handler is not called. *)
Theorem forbidden_direction_is_silent (env : Environment)
  (bridgeMap : gmap Z Bridge) (func : Message -> Bridge -> M unit)
  (ctx : TelegrafContext) (m : Message) (b : Bridge) (w : World) :
  ctx_payload ctx = Some m ->
  is_chatinfo (me w) m = false ->
  fromTelegramChatId bridgeMap (chat_id (chat m)) = Some b ->
  direction b = DIRECTION_DISCORD_TO_TELEGRAM ->
  createMessageHandler env bridgeMap func ctx w = (Normal tt, w).
Proof.
  intros Hp Hc Hb Hd. rewrite (wrapper_bridge env _ _ _ m b) by assumption.
  now rewrite decide_True.
Qed.

Lemma forbidden_direction_is_silent_witness :
  let m := Sample.with_text "hello" (Sample.blank 7 3) in
  createMessageHandler Sample.env_up Sample.bridges
    (relay Sample.env_up Sample.settings_off Sample.converter
       Sample.extensions on_text)
    (Sample.incoming m) Sample.start
  = (Normal tt, Sample.start).
Proof.
  intros m.
  exact (forbidden_direction_is_silent Sample.env_up Sample.bridges _
           (Sample.incoming m) m Sample.oneway Sample.start
           eq_refl eq_refl eq_refl eq_refl).
Defined.

(** ** Sending a file *)

Lemma append_empty_r (s : string) : s +:+ EmptyString = s.
Proof.
  induction s as [|c s IH]; [reflexivity|].
  change (String c (s +:+ EmptyString) = String c s). now rewrite IH.
Qed.

Section Files.

Variable env : Environment.
Variable messageConverter : Message -> Bridge -> MessageObj.

Lemma send_run (c body : string) (file : option Attachment) (w : World) :
  send env (Some c) body file w
  = let r := channel_send env (trace w) c body file in
    (match r with Fulfilled i => Normal i | Rejected e => Throw e end,
     after w [DcSend c body file r] (messageMap w)).
Proof.
  unfold send. rewrite bind_defined_run. unfold bind. rewrite perform_run.
  cbv zeta. now destruct (channel_send env (trace w) c body file).
Qed.

Lemma fetchMessage_run (c id : string) (w : World) :
  fetchMessage env (Some c) id w
  = let r := channel_fetchMessage env (trace w) c id in
    (match r with Fulfilled _ => Normal id | Rejected e => Throw e end,
     after w [DcFetchMessage c id r] (messageMap w)).
Proof.
  unfold fetchMessage. rewrite bind_defined_run. unfold bind.
  rewrite perform_run. cbv zeta.
  now destruct (channel_fetchMessage env (trace w) c id).
Qed.

Lemma edit_run (id body : string) (w : World) :
  edit env id body w
  = let r := dcMessage_edit env (trace w) id body in
    (match r with Fulfilled _ => Normal tt | Rejected e => Throw e end,
     after w [DcEdit id body r] (messageMap w)).
Proof.
  unfold edit, bind. rewrite perform_run. cbv zeta.
  now destruct (dcMessage_edit env (trace w) id body) as [[]|].
Qed.

(** The file sender when Discord is ready, the channel exists and Telegram
    gives the file and its link: three calls, the last one to Discord. *)
Lemma sendFile_run (b : Bridge) (arg : FileArg) (w : World) (f : File)
  (l ext : string) :
  dcBot_ready env = Fulfilled tt ->
  dcBot_channels env (channelId (discord b)) = true ->
  (forall h, telegram_getFile env h (arg_fileId arg) = Fulfilled f) ->
  (forall h, telegram_getFileLink env h (arg_fileId arg) = Fulfilled l) ->
  (if default false (arg_resolveExtension arg)
   then exists path,
       file_path f = Some path /\ ext = "." +:+ Js.pop (Js.split "." path)
   else ext = EmptyString) ->
  let c := channelId (discord b) in
  let body := file_text messageConverter b (arg_message arg) (arg_caption arg) in
  let att := {| att_link := l;
                att_name := Js.of_undefined (arg_fileName arg) +:+ ext |} in
  let calls := [TgGetFile (arg_fileId arg) (Fulfilled f);
                TgGetFileLink (arg_fileId arg) (Fulfilled l)] in
  let r := channel_send env (trace w ++ calls) c body (Some att) in
  sendFile env messageConverter b arg w
  = (match r with Fulfilled _ => Normal tt | Rejected e => Throw e end,
     after w (calls ++ [DcSend c body (Some att) r]) (messageMap w)).
Proof.
  intros Hready Hchan Hfile Hlink Hext c body att calls r.
  assert (Hrun :
    forall w0,
      (if default false (arg_resolveExtension arg)
       then let* path := defined (file_path f)
                           "Cannot read property 'split' of undefined" in
            ret ("." +:+ Js.pop (Js.split "." path))
       else ret EmptyString) w0 = (Normal ext, w0)).
  { intros w0. destruct (default false (arg_resolveExtension arg)).
    - destruct Hext as (path & -> & ->). reflexivity.
    - now subst ext. }
  unfold sendFile.
  erewrite bind_run; [|unfold await_ready; rewrite Hready; reflexivity].
  erewrite bind_run; [|apply perform_run]. cbv beta. rewrite Hfile.
  erewrite bind_run; [|apply perform_run]. cbv beta.
  rewrite trace_after, messageMap_after, Hlink, after_after.
  erewrite bind_run; [|reflexivity].
  erewrite bind_run; [|reflexivity].
  erewrite bind_run; [|apply Hrun].
  unfold channels_get. rewrite Hchan. unfold bind.
  rewrite send_run. cbv zeta.
  rewrite trace_after, messageMap_after, after_after.
  fold c. fold body. fold att.
  change ([TgGetFile (arg_fileId arg) (Fulfilled f)]
          ++ [TgGetFileLink (arg_fileId arg) (Fulfilled l)]) with calls.
  fold r. now destruct r.
Qed.

End Files.

(** ** Stickers, voice and audio *)

Section Media.

Variable env : Environment.
Variable settings : Settings.
Variable messageConverter : Message -> Bridge -> MessageObj.
Variable getExtension : option string -> option string.

(** A [try] block around the file sender, with a catch block that writes
    one log line. *)
Lemma try_sendFile_run (b : Bridge) (arg : FileArg) (w : World) (f : File)
  (l ext line : string) :
  dcBot_ready env = Fulfilled tt ->
  dcBot_channels env (channelId (discord b)) = true ->
  (forall h, telegram_getFile env h (arg_fileId arg) = Fulfilled f) ->
  (forall h, telegram_getFileLink env h (arg_fileId arg) = Fulfilled l) ->
  (if default false (arg_resolveExtension arg)
   then exists path,
       file_path f = Some path /\ ext = "." +:+ Js.pop (Js.split "." path)
   else ext = EmptyString) ->
  exists r,
    tryCatch (sendFile env messageConverter b arg)
      (fun err => logger_error line [ArgErr err]) w
    = (Normal tt,
       after w
         ([TgGetFile (arg_fileId arg) (Fulfilled f);
           TgGetFileLink (arg_fileId arg) (Fulfilled l);
           DcSend (channelId (discord b))
             (file_text messageConverter b (arg_message arg)
                (arg_caption arg))
             (Some {| att_link := l;
                      att_name := Js.of_undefined (arg_fileName arg)
                                  +:+ ext |})
             r]
          ++ match r with
             | Fulfilled _ => []
             | Rejected e => [LogError line [ArgErr e]]
             end)
         (messageMap w)).
Proof.
  intros Hready Hchan Hfile Hlink Hext. unfold tryCatch.
  rewrite (sendFile_run env messageConverter b arg w f l ext
             Hready Hchan Hfile Hlink Hext).
  cbv zeta.
  match goal with
  | |- context [DcSend _ _ _ ?r] => exists r; destruct r as [i|e]
  end.
  - reflexivity.
  - unfold logger_error. rewrite emit_run, after_after. reflexivity.
Qed.

End Media.

(** C6, as stated, fails: the bridge has its sticker flag on, the settings
    have theirs off, and the sticker goes out without its emoji. *)
Lemma bridge_flag_does_not_caption_sticker :
  let st := {| sticker_thumb := Some {| photo_file_id := "thumb-1" |};
               sticker_emoji := Some ":-)" |} in
  let m := Sample.with_sticker st (Sample.blank 8 1) in
  bridge_sendEmojiWithStickers (telegram Sample.lounge) = true
  /\ sent (trace (snd (relay Sample.env_up Sample.settings_off
                         Sample.converter Sample.extensions on_sticker m
                         Sample.lounge Sample.start)))
     = [("100", "**Alice**:" +:+ Js.nl,
         Some {| att_link := "https://api.telegram.org/file/thumb-1";
                 att_name := "sticker.webp" |})].
Proof. intros st m. split; vm_compute; reflexivity. Qed.

(** C6, amended: the file of a relayed sticker is the thumbnail, under the
    name [sticker.webp], and the caption is the emoji of the sticker when
    the flag [sendEmojiWithStickers] of the settings is on, the same flag
    for every bridge; with the flag off, or without an emoji, the caption
    is empty. *)
Theorem sticker_relay (env : Environment) (settings : Settings)
  (messageConverter : Message -> Bridge -> MessageObj) (m : Message)
  (b : Bridge) (w : World) (st : Sticker) (th : PhotoSize) (f : File)
  (l : string) :
  sticker m = Some st ->
  sticker_thumb st = Some th ->
  dcBot_ready env = Fulfilled tt ->
  dcBot_channels env (channelId (discord b)) = true ->
  (forall h, telegram_getFile env h (photo_file_id th) = Fulfilled f) ->
  (forall h, telegram_getFileLink env h (photo_file_id th) = Fulfilled l) ->
  exists r,
    sticker_handler env settings messageConverter m b w
    = (Normal tt,
       after w
         ([TgGetFile (photo_file_id th) (Fulfilled f);
           TgGetFileLink (photo_file_id th) (Fulfilled l);
           DcSend (channelId (discord b))
             ("**" +:+ obj_from (messageConverter m b) +:+ "**:" +:+ Js.nl
              +:+ (if sendEmojiWithStickers settings
                   then default EmptyString (sticker_emoji st)
                   else EmptyString))
             (Some {| att_link := l; att_name := "sticker.webp" |})
             r]
          ++ match r with
             | Fulfilled _ => []
             | Rejected e =>
                 [LogError (tag b +:+ "Could not send sticker") [ArgErr e]]
             end)
         (messageMap w)).
Proof.
  intros Hst Hth Hready Hchan Hfile Hlink.
  unfold sticker_handler.
  set (arg := {| arg_message := m;
                 arg_fileId := photo_file_id th;
                 arg_fileName := Some "sticker.webp";
                 arg_caption := if sendEmojiWithStickers settings
                                then sticker_emoji st else None;
                 arg_resolveExtension := None |}).
  destruct (try_sendFile_run env messageConverter b arg w f l EmptyString
              (tag b +:+ "Could not send sticker")
              Hready Hchan Hfile Hlink eq_refl) as [r Hr].
  exists r.
  transitivity
    (tryCatch (sendFile env messageConverter b arg)
       (fun err =>
          logger_error (tag b +:+ "Could not send sticker") [ArgErr err]) w).
  - unfold tryCatch.
    now rewrite Hst, bind_defined_run, Hth, bind_defined_run.
  - rewrite Hr. unfold file_text, arg.
    cbn [arg_message arg_caption arg_fileName arg_fileId].
    now destruct (sendEmojiWithStickers settings).
Qed.

Lemma sticker_relay_witness :
  let st := {| sticker_thumb := Some {| photo_file_id := "thumb-1" |};
               sticker_emoji := Some ":-)" |} in
  let m := Sample.with_sticker st (Sample.blank 8 1) in
  exists r,
    sticker_handler Sample.env_up Sample.settings_on Sample.converter m
      Sample.lounge Sample.start
    = (Normal tt,
       after Sample.start
         ([TgGetFile "thumb-1"
             (Fulfilled {| file_path := Some "music/thumb-1.ogg" |});
           TgGetFileLink "thumb-1"
             (Fulfilled "https://api.telegram.org/file/thumb-1");
           DcSend "100" ("**Alice**:" +:+ Js.nl +:+ ":-)")
             (Some {| att_link := "https://api.telegram.org/file/thumb-1";
                      att_name := "sticker.webp" |})
             r]
          ++ match r with
             | Fulfilled _ => []
             | Rejected e =>
                 [LogError "[lounge] Could not send sticker" [ArgErr e]]
             end)
         ∅).
Proof.
  intros st m.
  exact (sticker_relay Sample.env_up Sample.settings_on Sample.converter m
           Sample.lounge Sample.start st {| photo_file_id := "thumb-1" |}
           {| file_path := Some "music/thumb-1.ogg" |}
           "https://api.telegram.org/file/thumb-1"
           eq_refl eq_refl eq_refl eq_refl (fun _ => eq_refl)
           (fun _ => eq_refl)).
Defined.

(** C7, as stated, fails for audio: two audio files of the same content
    type, for which the table gives [mp3], go out as [Song.ogg] and
    [Tune.ogg].  The base of the name is the title, not a fixed name, and
    the extension is the one of the path on the server, not the one of the
    content type. *)
Lemma audio_name_is_not_from_content_type :
  let a1 := {| audio_file_id := "aud-1"; audio_title := Some "Song";
               audio_mime_type := Some "audio/mpeg" |} in
  let a2 := {| audio_file_id := "aud-1"; audio_title := Some "Tune";
               audio_mime_type := Some "audio/mpeg" |} in
  let names (a : Audio) :=
    map (fun c => att_name <$> snd c)
      (sent (trace (snd (relay Sample.env_up Sample.settings_off
                           Sample.converter Sample.extensions on_audio
                           (Sample.with_audio a (Sample.blank 9 1))
                           Sample.lounge Sample.start)))) in
  Sample.extensions (Some "audio/mpeg") = Some "mp3"
  /\ names a1 = [Some "Song.ogg"]
  /\ names a2 = [Some "Tune.ogg"].
Proof. intros a1 a2 names. repeat split; vm_compute; reflexivity. Qed.

(** C7, amended: a voice message goes out under the name [voice.] followed
    by the extension that the table of content types gives for its declared
    type, and the path on the server is not consulted; an audio file goes
    out under its title followed by a dot and by what follows the last dot
    of its path on the server, which is asked for every audio file, and its
    declared type is not consulted. *)
Theorem voice_and_audio_names (env : Environment)
  (messageConverter : Message -> Bridge -> MessageObj)
  (getExtension : option string -> option string) (b : Bridge) (w : World) :
  dcBot_ready env = Fulfilled tt ->
  dcBot_channels env (channelId (discord b)) = true ->
  (forall m v f l,
      voice m = Some v ->
      (forall h, telegram_getFile env h (voice_file_id v) = Fulfilled f) ->
      (forall h, telegram_getFileLink env h (voice_file_id v) = Fulfilled l) ->
      exists r,
        voice_handler env messageConverter getExtension m b w
        = (Normal tt,
           after w
             ([TgGetFile (voice_file_id v) (Fulfilled f);
               TgGetFileLink (voice_file_id v) (Fulfilled l);
               DcSend (channelId (discord b))
                 (file_text messageConverter b m None)
                 (Some {| att_link := l;
                          att_name :=
                            "voice."
                            +:+ Js.of_null (getExtension (voice_mime_type v)) |})
                 r]
              ++ match r with
                 | Fulfilled _ => []
                 | Rejected e =>
                     [LogError (tag b +:+ "Could not send voice") [ArgErr e]]
                 end)
             (messageMap w)))
  /\ (forall m a f l path,
         audio m = Some a ->
         (forall h, telegram_getFile env h (audio_file_id a) = Fulfilled f) ->
         (forall h,
             telegram_getFileLink env h (audio_file_id a) = Fulfilled l) ->
         file_path f = Some path ->
         exists r,
           audio_handler env messageConverter m b w
           = (Normal tt,
              after w
                ([TgGetFile (audio_file_id a) (Fulfilled f);
                  TgGetFileLink (audio_file_id a) (Fulfilled l);
                  DcSend (channelId (discord b))
                    (file_text messageConverter b m None)
                    (Some {| att_link := l;
                             att_name :=
                               Js.of_undefined (audio_title a) +:+ "."
                               +:+ Js.pop (Js.split "." path) |})
                    r]
                 ++ match r with
                    | Fulfilled _ => []
                    | Rejected e =>
                        [LogError (tag b +:+ "Could not send audio")
                           [ArgErr e]]
                    end)
                (messageMap w))).
Proof.
  intros Hready Hchan. split.
  - intros m v f l Hv Hfile Hlink.
    set (arg := {| arg_message := m;
                   arg_fileId := voice_file_id v;
                   arg_fileName :=
                     Some ("voice" +:+ "."
                           +:+ Js.of_null (getExtension (voice_mime_type v)));
                   arg_caption := None;
                   arg_resolveExtension := Some false |}).
    destruct (try_sendFile_run env messageConverter b arg w f l EmptyString
                (tag b +:+ "Could not send voice")
                Hready Hchan Hfile Hlink eq_refl) as [r Hr].
    exists r.
    transitivity
      (tryCatch (sendFile env messageConverter b arg)
         (fun err =>
            logger_error (tag b +:+ "Could not send voice") [ArgErr err]) w).
    + unfold voice_handler, tryCatch. now rewrite Hv, bind_defined_run.
    + rewrite Hr. unfold arg.
      cbn [arg_message arg_caption arg_fileName arg_fileId Js.of_undefined].
      now rewrite append_empty_r.
  - intros m a f l path Ha Hfile Hlink Hpath.
    set (arg := {| arg_message := m;
                   arg_fileId := audio_file_id a;
                   arg_fileName := audio_title a;
                   arg_caption := None;
                   arg_resolveExtension := Some true |}).
    assert (Hext : exists p,
               file_path f = Some p
               /\ "." +:+ Js.pop (Js.split "." path)
                  = "." +:+ Js.pop (Js.split "." p))
      by (now exists path).
    destruct (try_sendFile_run env messageConverter b arg w f l
                ("." +:+ Js.pop (Js.split "." path))
                (tag b +:+ "Could not send audio")
                Hready Hchan Hfile Hlink Hext) as [r Hr].
    exists r.
    transitivity
      (tryCatch (sendFile env messageConverter b arg)
         (fun err =>
            logger_error (tag b +:+ "Could not send audio") [ArgErr err]) w).
    + unfold audio_handler, tryCatch. now rewrite Ha, bind_defined_run.
    + rewrite Hr. reflexivity.
Qed.

Lemma voice_and_audio_names_witness :
  let v := {| voice_file_id := "voc-1"; voice_mime_type := Some "audio/ogg" |} in
  let a := {| audio_file_id := "aud-1"; audio_title := Some "Song";
              audio_mime_type := Some "audio/mpeg" |} in
  (exists r,
      voice_handler Sample.env_up Sample.converter Sample.extensions
        (Sample.with_voice v (Sample.blank 9 1)) Sample.lounge Sample.start
      = (Normal tt,
         after Sample.start
           ([TgGetFile "voc-1"
               (Fulfilled {| file_path := Some "music/voc-1.ogg" |});
             TgGetFileLink "voc-1"
               (Fulfilled "https://api.telegram.org/file/voc-1");
             DcSend "100" ("**Alice**:" +:+ Js.nl)
               (Some {| att_link := "https://api.telegram.org/file/voc-1";
                        att_name := "voice.oga" |})
               r]
            ++ match r with
               | Fulfilled _ => []
               | Rejected e =>
                   [LogError "[lounge] Could not send voice" [ArgErr e]]
               end)
           ∅))
  /\ (exists r,
         audio_handler Sample.env_up Sample.converter
           (Sample.with_audio a (Sample.blank 9 1)) Sample.lounge Sample.start
         = (Normal tt,
            after Sample.start
              ([TgGetFile "aud-1"
                  (Fulfilled {| file_path := Some "music/aud-1.ogg" |});
                TgGetFileLink "aud-1"
                  (Fulfilled "https://api.telegram.org/file/aud-1");
                DcSend "100" ("**Alice**:" +:+ Js.nl)
                  (Some {| att_link := "https://api.telegram.org/file/aud-1";
                           att_name := "Song.ogg" |})
                  r]
               ++ match r with
                  | Fulfilled _ => []
                  | Rejected e =>
                      [LogError "[lounge] Could not send audio" [ArgErr e]]
                  end)
              ∅)).
Proof.
  intros v a.
  destruct (voice_and_audio_names Sample.env_up Sample.converter
              Sample.extensions Sample.lounge Sample.start eq_refl eq_refl)
    as [Hvoice Haudio].
  split.
  - exact (Hvoice (Sample.with_voice v (Sample.blank 9 1)) v
             {| file_path := Some "music/voc-1.ogg" |}
             "https://api.telegram.org/file/voc-1"
             eq_refl (fun _ => eq_refl) (fun _ => eq_refl)).
  - exact (Haudio (Sample.with_audio a (Sample.blank 9 1)) a
             {| file_path := Some "music/aud-1.ogg" |}
             "https://api.telegram.org/file/aud-1" "music/aud-1.ogg"
             eq_refl (fun _ => eq_refl) (fun _ => eq_refl) eq_refl).
Defined.

(** ** Joining users *)

Lemma makeNameObject_name (u : User) :
  nameObj_name (makeNameObject u) = display_name u.
Proof.
  unfold makeNameObject, display_name. simpl.
  destruct (last_name u); [reflexivity | apply append_empty_r].
Qed.

Lemma makeNameObject_username (u : User) :
  nameObj_username (makeNameObject u) = handle u.
Proof. reflexivity. Qed.


Lemma destination_calls_app (e1 e2 : list Event) :
  destination_calls (e1 ++ e2) = destination_calls e1 ++ destination_calls e2.
Proof. apply List.filter_app. Qed.


Section Join.

Variable env : Environment.
Variable b : Bridge.

Hypothesis ready : dcBot_ready env = Fulfilled tt.
Hypothesis channel : dcBot_channels env (channelId (discord b)) = true.



End Join.




(** ** Relaying a text *)

Section Text.

Variable env : Environment.
Variable c : string.

(** The loop over the chunks, on a channel that exists. *)
Lemma send_loop_run (chunks : list string) (s : option string) (w : World) :
  let loop :=
    for_of chunks
      (fun _ chunk => let* i := send env (Some c) chunk None in ret (Some i))
      s in
  exists evs,
    snd (loop w) = after w evs (messageMap w)
    /\ destination_calls evs = evs
    /\ in_series c chunks evs
    /\ match fst (loop w) with
       | Normal d =>
           exists ids,
             length ids = length chunks
             /\ evs = fulfilled_sends c chunks ids
             /\ d = from_option Some s (last ids)
       | Throw _ => True
       end
    /\ ((forall h body, exists i,
            channel_send env h c body None = Fulfilled i) ->
        exists d, fst (loop w) = Normal d).
Proof.
  revert s w. induction chunks as [|chunk rest IH]; intros s w loop.
  - exists []. subst loop. simpl. rewrite after_nil.
    repeat split; eauto. now exists [].
  - subst loop. simpl.
    destruct (channel_send env (trace w) c chunk None) as [i|e] eqn:Hr.
    + erewrite bind_run;
        [|erewrite bind_run;
          [reflexivity | rewrite send_run; cbv zeta; rewrite Hr; reflexivity]].
      destruct (IH (Some i)
                  (after w [DcSend c chunk None (Fulfilled i)] (messageMap w)))
        as (evs & Hw & Hdc & Hseries & Hres & Hok).
      cbv zeta in Hw, Hres, Hok. rewrite after_after in Hw.
      exists (DcSend c chunk None (Fulfilled i) :: evs).
      split; [exact Hw|]. split; [simpl; now rewrite Hdc|].
      split; [simpl; eauto|]. split; [|exact Hok].
      destruct (fst _) as [d|err]; [|exact I].
      destruct Hres as (ids & Hlen & Hevs & Hd).
      exists (i :: ids). simpl. rewrite Hlen, Hevs.
      repeat split; try reflexivity.
      rewrite last_cons. rewrite Hd. now destruct (last ids).
    + erewrite bind_throw_run;
        [|erewrite bind_throw_run;
          [reflexivity | rewrite send_run; cbv zeta; rewrite Hr; reflexivity]].
      exists [DcSend c chunk None (Rejected e)]. simpl.
      split; [reflexivity|]. split; [reflexivity|].
      split; [now exists (Rejected e)|]. split; [exact I|].
      intros Hall. destruct (Hall (trace w) chunk) as [i Hi]. congruence.
Qed.

End Text.

Lemma match_all_nonempty (n : nat) (s : string) (l : list string) :
  Js.match_all n s = Some l -> l <> [].
Proof.
  unfold Js.match_all. destruct (Js.matches n (String.length s) s);
    [discriminate | now intros [= <-]].
Qed.

Lemma last_is_Some {A} (l : list A) : 0 < length l -> is_Some (last l).
Proof.
  destruct l as [|x l]; simpl; [lia|]. intros _. rewrite last_cons.
  destruct (last l); eauto.
Qed.

Section TextHandler.

Variable env : Environment.
Variable messageConverter : Message -> Bridge -> MessageObj.

Lemma text_catch_run (m : Message) (b : Bridge) (err : JsError) (w : World) :
  (let* _ := logger_error
               (tag b +:+ "Discord did not accept a text message:")
               [ArgErr err] in
   logger_error (tag b +:+ "Failed message:") [ArgText (text m)]) w
  = (Normal tt, after w (text_logs m b err) (messageMap w)).
Proof.
  unfold bind, logger_error. now rewrite !emit_run, after_after.
Qed.

(** The handler for text: either every chunk was sent and fulfilled, and the
    id of the last new message is put in the map; or the map is as before
    and the calls are followed by the two log lines. *)
Lemma text_handler_run (m : Message) (b : Bridge) (w : World) :
  let c := channelId (discord b) in
  let chunks :=
    default [] (Js.match_all DISCORD_LIMIT (composed (messageConverter m b))) in
  exists evs mm,
    text_handler env messageConverter m b w = (Normal tt, after w evs mm)
    /\ in_series c chunks (destination_calls evs)
    /\ ((exists ids d,
            length ids = length chunks
            /\ evs = fulfilled_sends c chunks ids
            /\ last ids = Some d
            /\ mm = <[(TELEGRAM_TO_DISCORD, message_id m) := d]> (messageMap w))
        \/ (mm = messageMap w
            /\ exists err, evs = destination_calls evs ++ text_logs m b err))
    /\ (dcBot_ready env = Fulfilled tt ->
        dcBot_channels env c = true ->
        (forall h body, exists i,
            channel_send env h c body None = Fulfilled i) ->
        composed (messageConverter m b) <> EmptyString ->
        exists ids d,
          length ids = length chunks
          /\ evs = fulfilled_sends c chunks ids
          /\ last ids = Some d
          /\ mm = <[(TELEGRAM_TO_DISCORD, message_id m) := d]> (messageMap w)).
Proof.
  intros c chunks. unfold text_handler, tryCatch. cbv zeta.
  destruct (dcBot_ready env) as [[]|e] eqn:Hready.
  2:{ (* the Discord bot never became ready *)
    erewrite bind_throw_run;
      [|unfold await_ready; rewrite Hready; reflexivity].
    rewrite text_catch_run.
    exists (text_logs m b e), (messageMap w).
    split; [reflexivity|]. split; [simpl; exact I|].
    split; [right; split; [reflexivity | now exists e]|].
    discriminate. }
  erewrite bind_run; [|unfold await_ready; rewrite Hready; reflexivity].
  subst chunks.
  destruct (Js.match_all DISCORD_LIMIT (composed (messageConverter m b)))
    as [chunks|] eqn:Hmatch.
  2:{ (* nothing to send *)
    erewrite bind_throw_run; [|reflexivity].
    rewrite text_catch_run. eexists _, (messageMap w).
    split; [reflexivity|]. split; [simpl; exact I|].
    split; [right; split; [reflexivity | eexists; reflexivity]|].
    intros _ _ _ Hne. apply JsFacts.match_all_None in Hmatch; [tauto|].
    unfold DISCORD_LIMIT. lia. }
  rewrite bind_defined_run. cbn [default from_option].
  pose proof (match_all_nonempty _ _ _ Hmatch) as Hne.
  unfold channels_get. fold c.
  destruct (dcBot_channels env c) eqn:Hchan.
  2:{ (* the channel is not there *)
    destruct chunks as [|chunk rest]; [congruence|].
    erewrite bind_throw_run; [|reflexivity].
    rewrite text_catch_run. eexists _, (messageMap w).
    split; [reflexivity|]. split; [simpl; exact I|].
    split; [right; split; [reflexivity | eexists; reflexivity]|].
    discriminate. }
  destruct (send_loop_run env c chunks None w)
    as (evs & Hw & Hdc & Hseries & Hres & Hok).
  cbv zeta in Hw, Hres, Hok.
  destruct (for_of chunks _ None w) as [[d|err] w1] eqn:Hloop;
    simpl in Hw, Hres, Hok; subst w1.
  - destruct Hres as (ids & Hlen & Hevs & Hd).
    destruct (last_is_Some ids) as [i Hi].
    { rewrite Hlen. destruct chunks; [congruence | simpl; lia]. }
    rewrite Hi in Hd. simpl in Hd. subst d.
    erewrite bind_run; [|exact Hloop].
    rewrite bind_defined_run. unfold messageMap_insert.
    rewrite set_messageMap_after, after_after, app_nil_r, messageMap_after.
    exists evs, (<[(TELEGRAM_TO_DISCORD, message_id m) := i]> (messageMap w)).
    split; [reflexivity|]. split; [now rewrite Hdc|].
    assert (Hdone :
      exists ids0 d0,
        length ids0 = length chunks
        /\ evs = fulfilled_sends c chunks ids0
        /\ last ids0 = Some d0
        /\ <[(TELEGRAM_TO_DISCORD, message_id m) := i]> (messageMap w)
           = <[(TELEGRAM_TO_DISCORD, message_id m) := d0]> (messageMap w))
      by (exists ids, i; auto).
    split; [now left | intros; exact Hdone].
  - erewrite bind_throw_run; [|exact Hloop].
    rewrite text_catch_run, after_after.
    exists (evs ++ text_logs m b err), (messageMap w).
    assert (Hcalls : destination_calls (evs ++ text_logs m b err) = evs)
      by (rewrite destination_calls_app, Hdc; simpl; apply app_nil_r).
    split; [reflexivity|]. split; [now rewrite Hcalls|].
    split; [right; split; [reflexivity | exists err; now rewrite Hcalls]|].
    intros _ _ Hall _. destruct (Hok Hall) as [d Hd]. discriminate Hd.
Qed.

End TextHandler.

(** C1: the composed text of a text event, of length [L], is split into
    [L / 2000] chunks, rounded up; no chunk is longer than 2000; the chunks
    in order give the text back.  The calls to Discord that the handler
    makes are calls of [send] for the chunks in their order, each made only
    when the one before was fulfilled.  The map changes in one way only:
    when every chunk was sent and fulfilled, the id of the last new message
    is put under the id of the Telegram message; and that is what happens
    when the Discord bot is ready, the channel exists, Discord accepts the
    messages and the text is not empty. *)
Theorem text_relay (env : Environment)
  (messageConverter : Message -> Bridge -> MessageObj) (m : Message)
  (b : Bridge) (w : World) :
  let composed_text := composed (messageConverter m b) in
  let c := channelId (discord b) in
  let chunks := default [] (Js.match_all DISCORD_LIMIT composed_text) in
  length chunks = (String.length composed_text + 1999) / 2000
  /\ Forall (fun chunk => String.length chunk <= 2000) chunks
  /\ Js.concat chunks = composed_text
  /\ exists evs mm,
      text_handler env messageConverter m b w = (Normal tt, after w evs mm)
      /\ in_series c chunks (destination_calls evs)
      /\ ((exists ids d,
              length ids = length chunks
              /\ evs = fulfilled_sends c chunks ids
              /\ last ids = Some d
              /\ mm = <[(TELEGRAM_TO_DISCORD, message_id m) := d]>
                        (messageMap w))
          \/ (mm = messageMap w
              /\ exists err, evs = destination_calls evs ++ text_logs m b err))
      /\ (dcBot_ready env = Fulfilled tt ->
          dcBot_channels env c = true ->
          (forall h body, exists i,
              channel_send env h c body None = Fulfilled i) ->
          composed_text <> EmptyString ->
          exists ids d,
            length ids = length chunks
            /\ evs = fulfilled_sends c chunks ids
            /\ last ids = Some d
            /\ mm = <[(TELEGRAM_TO_DISCORD, message_id m) := d]>
                      (messageMap w)).
Proof.
  intros composed_text c chunks.
  assert (Hlimit : 0 < DISCORD_LIMIT) by (unfold DISCORD_LIMIT; lia).
  assert (Hchunks :
    chunks = Js.matches DISCORD_LIMIT (String.length composed_text)
               composed_text).
  { subst chunks. destruct (Js.match_all _ _) as [l|] eqn:Hm.
    - now apply JsFacts.match_all_Some.
    - apply JsFacts.match_all_None in Hm; [|exact Hlimit].
      rewrite Hm. reflexivity. }
  split; [|split; [|split]].
  - rewrite Hchunks, JsFacts.matches_count by auto.
    f_equal. unfold DISCORD_LIMIT. lia.
  - rewrite Hchunks.
    eapply Forall_impl; [apply JsFacts.matches_bounds; exact Hlimit|].
    intros chunk [_ Hle]. exact Hle.
  - rewrite Hchunks. now apply JsFacts.matches_concat.
  - apply text_handler_run.
Qed.

Lemma text_relay_witness :
  let m := Sample.with_text "hello" (Sample.blank 5 1) in
  exists evs mm,
    text_handler Sample.env_up Sample.converter m Sample.lounge Sample.start
    = (Normal tt, after Sample.start evs mm)
    /\ exists ids d,
        length ids = 1
        /\ evs = fulfilled_sends "100" ["**Alice**: hello"] ids
        /\ last ids = Some d
        /\ mm = <[(TELEGRAM_TO_DISCORD, 5%Z) := d]> ∅.
Proof.
  intros m.
  destruct (text_relay Sample.env_up Sample.converter m Sample.lounge
              Sample.start)
    as (_ & _ & _ & evs & mm & Hrun & _ & _ & Hok).
  exists evs, mm. split; [exact Hrun|].
  apply Hok.
  - reflexivity.
  - reflexivity.
  - intros h body. eexists. reflexivity.
  - discriminate.
Defined.

(** A text of 4000 code units behind the name of the sender goes out in
    three messages, and the map keeps the id of the third. *)
Example text_relay_long :
  let m := Sample.with_text (Sample.filler 4000) (Sample.blank 5 1) in
  let w := snd (relay Sample.env_up Sample.settings_off Sample.converter
                  Sample.extensions on_text m Sample.lounge Sample.start) in
  map (fun call => String.length (snd (fst call))) (sent (trace w))
  = [2000; 2000; 11]
  /\ messageMap w !! (TELEGRAM_TO_DISCORD, 5%Z) = Some "dc-2"
  /\ size (messageMap w) = 1.
Proof. intros m w. repeat split; vm_compute; reflexivity. Qed.

(** When Discord rejects the second chunk the third is not sent and nothing
    is put in the map. *)
Example text_relay_second_rejected :
  let m := Sample.with_text (Sample.filler 4000) (Sample.blank 5 1) in
  let env :=
    {| dcBot_ready := Fulfilled tt;
       dcBot_channels := fun _ => true;
       channel_send := fun h _ _ _ =>
         match h with
         | [] => Fulfilled "dc-0"
         | _ => Rejected (Rejection "Missing Access")
         end;
       channel_fetchMessage := fun _ _ _ => Fulfilled tt;
       dcMessage_edit := fun _ _ _ => Fulfilled tt;
       telegram_getFile := fun _ _ => Rejected (Rejection "Bad Request");
       telegram_getFileLink := fun _ _ => Rejected (Rejection "Bad Request");
       telegram_sendMessage := fun _ _ _ _ => Fulfilled tt |} in
  let w := snd (relay env Sample.settings_off Sample.converter
                  Sample.extensions on_text m Sample.lounge Sample.start) in
  length (sent (trace w)) = 2
  /\ length (logged (trace w)) = 2
  /\ messageMap w !! (TELEGRAM_TO_DISCORD, 5%Z) = None.
Proof. intros m env w. repeat split; vm_compute; reflexivity. Qed.

(** ** Relaying an edit *)

Section Edit.

Variable env : Environment.
Variable messageConverter : Message -> Bridge -> MessageObj.

(** The log line of the catch block of the handler for edits. *)
Lemma edit_catch_run (b : Bridge) (err : JsError) (w : World) :
  logger_error (tag b +:+ "Could not edit Discord message:") [ArgErr err] w
  = (Normal tt,
     after w
       [LogError (tag b +:+ "Could not edit Discord message:") [ArgErr err]]
       (messageMap w)).
Proof. reflexivity. Qed.

(** An edit of a message without an entry in the map: one log line, and
    nothing else. *)
Lemma edit_miss (m : Message) (b : Bridge) (w : World) :
  messageMap w !! (TELEGRAM_TO_DISCORD, message_id m) = None ->
  exists err,
    edited_message_handler env messageConverter m b w
    = (Normal tt,
       after w
         [LogError (tag b +:+ "Could not edit Discord message:") [ArgErr err]]
         (messageMap w)).
Proof.
  intros Hmiss. unfold edited_message_handler, tryCatch.
  destruct (dcBot_ready env) as [[]|e] eqn:Hready.
  - erewrite bind_run; [|unfold await_ready; rewrite Hready; reflexivity].
    erewrite bind_throw_run;
      [|unfold messageMap_getCorresponding; rewrite Hmiss; reflexivity].
    eexists. apply edit_catch_run.
  - erewrite bind_throw_run;
      [|unfold await_ready; rewrite Hready; reflexivity].
    eexists. apply edit_catch_run.
Qed.

(** An edit of a message with an entry [d] in the map: the calls to Discord
    are at most a fetch of [d] and, when the fetch was fulfilled, one edit
    of [d] with the composed text. *)
Lemma edit_hit (m : Message) (b : Bridge) (w : World) (d : string) :
  messageMap w !! (TELEGRAM_TO_DISCORD, message_id m) = Some d ->
  let c := channelId (discord b) in
  let body := composed (messageConverter m b) in
  exists evs,
    edited_message_handler env messageConverter m b w
    = (Normal tt, after w evs (messageMap w))
    /\ (edited evs = [] \/ edited evs = [(d, body)])
    /\ (dcBot_ready env = Fulfilled tt ->
        dcBot_channels env c = true ->
        channel_fetchMessage env (trace w) c d = Fulfilled tt ->
        exists r,
          evs = [DcFetchMessage c d (Fulfilled tt); DcEdit d body r]
                ++ match r with
                   | Fulfilled _ => []
                   | Rejected e =>
                       [LogError (tag b +:+ "Could not edit Discord message:")
                          [ArgErr e]]
                   end).
Proof.
  intros Hhit c body. unfold edited_message_handler, tryCatch.
  destruct (dcBot_ready env) as [[]|e] eqn:Hready.
  2:{ erewrite bind_throw_run;
        [|unfold await_ready; rewrite Hready; reflexivity].
      eexists. split; [apply edit_catch_run|]. split; [now left|].
      discriminate. }
  erewrite bind_run; [|unfold await_ready; rewrite Hready; reflexivity].
  erewrite bind_run;
    [|unfold messageMap_getCorresponding; rewrite Hhit; reflexivity].
  unfold channels_get. fold c.
  destruct (dcBot_channels env c) eqn:Hchan.
  2:{ erewrite bind_throw_run; [|reflexivity].
      eexists. split; [apply edit_catch_run|]. split; [now left|].
      discriminate. }
  destruct (channel_fetchMessage env (trace w) c d) as [[]|e] eqn:Hfetch.
  2:{ erewrite bind_throw_run;
        [|rewrite fetchMessage_run; cbv zeta; rewrite Hfetch; reflexivity].
      rewrite edit_catch_run, after_after.
      eexists. split; [reflexivity|]. split; [now left|].
      discriminate. }
  erewrite bind_run;
    [|rewrite fetchMessage_run; cbv zeta; rewrite Hfetch; reflexivity].
  rewrite edit_run. cbv zeta.
  rewrite trace_after, messageMap_after, after_after.
  fold body.
  destruct (dcMessage_edit env _ d body) as [[]|e] eqn:Hedit.
  - eexists. split; [reflexivity|]. split; [now right|].
    intros _ _ _. now exists (Fulfilled tt).
  - rewrite edit_catch_run, after_after.
    eexists. split; [reflexivity|]. split; [now right|].
    intros _ _ _. now exists (Rejected e).
Qed.

End Edit.




(** ** One event after the other *)

Section Delivery.

Variable env : Environment.
Variable settings : Settings.
Variable messageConverter : Message -> Bridge -> MessageObj.
Variable getExtension : option string -> option string.
Variable bridgeMap : gmap Z Bridge.


(** The wrapper leaves an entry of the map alone when the handler does. *)
Lemma wrapper_keeps_key (id : Z) (func : Message -> Bridge -> M unit)
  (ctx : TelegrafContext) :
  (forall m b, ctx_payload ctx = Some m -> keeps_key id (func m b)) ->
  keeps_key id (createMessageHandler env bridgeMap func ctx).
Proof.
  intros Hfunc w. destruct (ctx_payload ctx) as [m|] eqn:Hp.
  - destruct (is_chatinfo (me w) m) eqn:Hc.
    + now rewrite (wrapper_chatinfo env _ _ _ m) by assumption.
    + destruct (fromTelegramChatId bridgeMap (chat_id (chat m)))
        as [b|] eqn:Hb.
      * rewrite (wrapper_bridge env _ _ _ m b) by assumption.
        case_decide; [reflexivity | now apply Hfunc].
      * now rewrite (wrapper_no_bridge env _ _ _ m) by assumption.
  - unfold createMessageHandler. rewrite Hp. reflexivity.
Qed.

Lemma listener_keeps_key (id : Z) (k : EventName) (ctx : TelegrafContext) :
  spares id (k, ctx) ->
  keeps_key id
    (listener env settings messageConverter getExtension bridgeMap k ctx).
Proof.
  intros Hspare. apply wrapper_keeps_key. intros m b Hp.
  destruct (decide (k = on_text)) as [->|Hk].
  - simpl. apply keeps_key_async, text_keeps_key. now apply Hspare.
  - apply keeps_key_of_map. now apply relay_keeps_map.
Qed.

Lemma deliver_keeps_key (id : Z) (events : list (EventName * TelegrafContext)) :
  Forall (spares id) events ->
  keeps_key id
    (deliver env settings messageConverter getExtension bridgeMap events).
Proof.
  induction 1 as [|[k ctx] events Hhead _ IH]; simpl.
  - apply keeps_key_of_map, keeps_map_ret.
  - apply keeps_key_bind; [now apply listener_keeps_key | intros _; exact IH].
Qed.

End Delivery.



(** A photo that Telegram gives no file for is logged, and the text that
    comes after it is relayed. *)
Example text_after_failed_photo :
  let p := Sample.with_photo [{| photo_file_id := "pic-1" |}]
             (Sample.blank 6 1) in
  let t := Sample.with_text "hello" (Sample.blank 7 1) in
  deliver Sample.env_no_files Sample.settings_off Sample.converter
    Sample.extensions Sample.bridges
    [(on_photo, Sample.incoming p); (on_text, Sample.incoming t)]
    Sample.start
  = (Normal tt,
     {| trace :=
          [TgGetFile "pic-1" (Rejected (Rejection "Bad Request"));
           TgGetFileLink "pic-1" (Rejected (Rejection "Bad Request"));
           LogError "[lounge] Could not send photo"
             [ArgErr (Rejection "Bad Request")];
           DcSend "100" "**Alice**: hello" None (Fulfilled "dc-3")];
        messageMap := <[(TELEGRAM_TO_DISCORD, 7%Z) := "dc-3"]> ∅;
        me := Some Sample.tedi |}).
Proof. vm_compute. reflexivity. Qed.

(** C10, as stated, fails: a text with the message id 5 is relayed from one
    chat and a photo with the message id 5 from another chat.  The photo is
    relayed and writes nothing to the map, yet an edit of the photo finds
    the entry of the text: it fetches that message and edits it, and nothing
    is logged. *)
Lemma edit_of_photo_finds_entry_of_text :
  let t := Sample.with_text "hello" (Sample.blank 5 1) in
  let p := Sample.with_photo [{| photo_file_id := "pic-1" |}]
             (Sample.blank 5 2) in
  let run := deliver Sample.env_up Sample.settings_off Sample.converter
               Sample.extensions Sample.bridges in
  let w := snd (run [(on_text, Sample.incoming t);
                     (on_photo, Sample.incoming p)] Sample.start) in
  let w' := snd (run [(on_edited_message, Sample.incoming_edit p)] w) in
  map (fun call => att_name <$> snd call) (sent (trace w))
  = [None; Some "photo.jpg"]
  /\ messageMap w !! (TELEGRAM_TO_DISCORD, 5%Z) = Some "dc-0"
  /\ trace w'
     = trace w ++ [DcFetchMessage "200" "dc-0" (Fulfilled tt);
                   DcEdit "dc-0" "**Alice**: " (Fulfilled tt)].
Proof. intros t p run w w'. repeat split; vm_compute; reflexivity. Qed.

(** C10, amended: the handlers for photos, stickers, documents, voice,
    audio, video, joins, leaves and edits leave the message map as it is;
    the handler for text is the only one that writes to it, under the id of
    its own message.  So when a message id has no entry and the events that
    are delivered are not texts with that message id, the id is still
    without an entry, and an edit of a message with that id leads to one
    log line and to no call to Discord. *)
Theorem only_text_writes_the_map (env : Environment) (settings : Settings)
  (messageConverter : Message -> Bridge -> MessageObj)
  (getExtension : option string -> option string) :
  (forall k m b w,
      k <> on_text ->
      messageMap
        (snd (relay env settings messageConverter getExtension k m b w))
      = messageMap w)
  /\ (forall bridgeMap events w id,
         Forall (spares id) events ->
         messageMap w !! (TELEGRAM_TO_DISCORD, id) = None ->
         let w' :=
           snd (deliver env settings messageConverter getExtension bridgeMap
                  events w) in
         messageMap w' !! (TELEGRAM_TO_DISCORD, id) = None
         /\ forall m b,
             message_id m = id ->
             exists err,
               edited_message_handler env messageConverter m b w'
               = (Normal tt,
                  after w'
                    [LogError (tag b +:+ "Could not edit Discord message:")
                       [ArgErr err]]
                    (messageMap w'))).
Proof.
  split.
  - intros k m b w Hk. now apply relay_keeps_map.
  - intros bridgeMap events w id Hspare Hnone w'.
    assert (Hstill : messageMap w' !! (TELEGRAM_TO_DISCORD, id) = None).
    { subst w'.
      rewrite (deliver_keeps_key env settings messageConverter getExtension
                 bridgeMap id events Hspare w).
      exact Hnone. }
    split; [exact Hstill|].
    intros m b Hid. apply edit_miss. now rewrite Hid.
Qed.

Lemma only_text_writes_the_map_witness :
  let p := Sample.with_photo [{| photo_file_id := "pic-1" |}]
             (Sample.blank 5 2) in
  let t := Sample.with_text "hello" (Sample.blank 6 1) in
  let w' :=
    snd (deliver Sample.env_up Sample.settings_off Sample.converter
           Sample.extensions Sample.bridges
           [(on_text, Sample.incoming t); (on_photo, Sample.incoming p)]
           Sample.start) in
  messageMap
    (snd (relay Sample.env_up Sample.settings_off Sample.converter
            Sample.extensions on_photo p Sample.garden Sample.start))
  = messageMap Sample.start
  /\ messageMap w' !! (TELEGRAM_TO_DISCORD, 5%Z) = None
  /\ exists err,
      edited_message_handler Sample.env_up Sample.converter p Sample.garden w'
      = (Normal tt,
         after w'
           [LogError "[garden] Could not edit Discord message:" [ArgErr err]]
           (messageMap w')).
Proof.
  intros p t w'.
  destruct (only_text_writes_the_map Sample.env_up Sample.settings_off
              Sample.converter Sample.extensions) as [Hkeep Hmiss].
  split.
  - apply Hkeep. discriminate.
  - assert (Hspare :
      Forall (spares 5)
        [(on_text, Sample.incoming t); (on_photo, Sample.incoming p)]).
    { repeat constructor.
      - intros _ m0 [= <-]. discriminate.
      - intros Hk. discriminate Hk. }
    destruct (Hmiss Sample.bridges _ Sample.start 5%Z Hspare eq_refl)
      as [Hnone Hedit].
    split; [exact Hnone|]. exact (Hedit p Sample.garden eq_refl).
Defined.

(** * More properties *)

(** ** Strings *)

Module JsMore.

Lemma take_all (n : nat) (s : string) :
  String.length s <= n -> Js.take n s = s.
Proof.
  revert s. induction n as [|n IH]; intros [|c r] Hlen; try reflexivity.
  - simpl in Hlen. lia.
  - simpl in *. f_equal. apply IH. lia.
Qed.

Lemma drop_all (n : nat) (s : string) :
  String.length s <= n -> Js.drop n s = EmptyString.
Proof.
  revert s. induction n as [|n IH]; intros [|c r] Hlen; try reflexivity.
  - simpl in Hlen. lia.
  - simpl in *. apply IH. lia.
Qed.

(** A string that fits in one chunk is its own and only chunk. *)
Lemma match_all_short (n : nat) (s : string) :
  0 < String.length s <= n -> Js.match_all n s = Some [s].
Proof.
  intros [Hpos Hle]. unfold Js.match_all.
  destruct s as [|c r]; [simpl in Hpos; lia|].
  change (String.length (String c r)) with (S (String.length r)).
  rewrite JsFacts.matches_step by discriminate.
  rewrite take_all, drop_all by assumption.
  now rewrite JsFacts.matches_empty.
Qed.

(** Every chunk but the last is full: it has exactly [n] code units. *)
Lemma chunks_before_last_are_full (n : nat) (s : string)
  (front : list string) (final : string) :
  Js.match_all n s = Some (front ++ [final]) ->
  Forall (fun chunk => String.length chunk = n) front.
Proof.
  intros Hm. apply JsFacts.match_all_Some in Hm.
  remember (String.length s) as f eqn:Hf. clear Hf.
  revert s front Hm. induction f as [|f IH]; intros s front Hm.
  - simpl in Hm. now destruct front.
  - destruct (string_dec s EmptyString) as [->|Hne].
    + simpl in Hm. now destruct front.
    + rewrite JsFacts.matches_step in Hm by assumption.
      destruct front as [|chunk front]; [constructor|].
      simpl in Hm. injection Hm as Hchunk Hrest.
      pose proof (JsFacts.length_pos s Hne) as Hpos.
      assert (Hmore : Js.drop n s <> EmptyString).
      { intros Hd. rewrite Hd, JsFacts.matches_empty in Hrest.
        now destruct front. }
      apply JsFacts.length_pos in Hmore. rewrite JsFacts.length_drop in Hmore.
      constructor.
      * rewrite Hchunk, JsFacts.length_take. lia.
      * apply (IH (Js.drop n s)). exact Hrest.
Qed.

Lemma split_nonempty (sep : ascii) (s : string) : Js.split sep s <> [].
Proof.
  destruct s as [|c r]; simpl; [discriminate|].
  destruct (Ascii.eqb c sep); [discriminate|].
  destruct (Js.split sep r); discriminate.
Qed.

(** A string without the separator is not split. *)
Lemma split_whole (sep : ascii) (s : string) :
  has_unit sep s = false -> Js.split sep s = [s].
Proof.
  induction s as [|c r IH]; simpl; [reflexivity|].
  intros H. apply orb_false_iff in H as [Hc Hr].
  rewrite Hc, (IH Hr). reflexivity.
Qed.

(** The split of two strings joined by the separator. *)
Lemma split_join (sep : ascii) (a b : string) :
  Js.split sep (a +:+ String sep b) = Js.split sep a ++ Js.split sep b.
Proof.
  induction a as [|c a IH].
  - change (EmptyString +:+ String sep b) with (String sep b).
    simpl. now rewrite Ascii.eqb_refl.
  - change (String c a +:+ String sep b) with (String c (a +:+ String sep b)).
    simpl. rewrite IH. destruct (Ascii.eqb c sep); [reflexivity|].
    pose proof (split_nonempty sep a) as Hne.
    destruct (Js.split sep a) as [|h t]; [congruence | reflexivity].
Qed.

Lemma last_app_nonempty {A} (l1 l2 : list A) (d : A) :
  l2 <> [] -> List.last (l1 ++ l2) d = List.last l2 d.
Proof.
  intros Hne. induction l1 as [|x l1 IH]; [reflexivity|].
  simpl. destruct (l1 ++ l2) eqn:Happ; [|exact IH].
  apply app_eq_nil in Happ as [_ ->]. congruence.
Qed.

(** No part of a split holds the separator. *)
Lemma split_parts_clean (sep : ascii) (s : string) :
  Forall (fun part => has_unit sep part = false) (Js.split sep s).
Proof.
  induction s as [|c r IH]; simpl; [repeat constructor|].
  destruct (Ascii.eqb c sep) eqn:Hc; [now constructor|].
  destruct (Js.split sep r) as [|h t]; [repeat constructor; simpl; now rewrite Hc|].
  inversion IH; subst. constructor; [simpl; now rewrite Hc | assumption].
Qed.

Lemma lower_unit_idem (c : ascii) :
  Js.lower_unit (Js.lower_unit c) = Js.lower_unit c.
Proof.
  destruct c as [[] [] [] [] [] [] [] []]; vm_compute; reflexivity.
Qed.

(** Lower case is a fixed point of [toLowerCase]. *)
Lemma toLowerCase_idem (s : string) :
  Js.toLowerCase (Js.toLowerCase s) = Js.toLowerCase s.
Proof.
  induction s as [|c r IH]; simpl; [reflexivity|].
  now rewrite lower_unit_idem, IH.
Qed.

End JsMore.

(** X13: the extension the file sender appends, [path.split(".").pop()],
    holds no dot; it is the whole path when the path has no dot, and what
    follows the last dot otherwise. *)
Theorem extension_is_after_last_dot (path : string) :
  has_unit "." (Js.pop (Js.split "." path)) = false
  /\ (has_unit "." path = false -> Js.pop (Js.split "." path) = path)
  /\ (forall a b,
         path = a +:+ String "." b ->
         has_unit "." b = false ->
         Js.pop (Js.split "." path) = b).
Proof.
  split; [|split].
  - unfold Js.pop.
    pose proof (JsMore.split_parts_clean "." path) as Hclean.
    pose proof (JsMore.split_nonempty "." path) as Hne.
    induction Hclean as [|part parts Hpart _ IH]; [congruence|].
    destruct parts as [|p parts]; [exact Hpart|].
    apply IH. discriminate.
  - intros Hno. now rewrite JsMore.split_whole.
  - intros a b -> Hb. unfold Js.pop.
    rewrite JsMore.split_join, JsMore.last_app_nonempty
      by apply JsMore.split_nonempty.
    now rewrite JsMore.split_whole.
Qed.

Lemma extension_is_after_last_dot_witness :
  Js.pop (Js.split "." "music/file_5.tar.mp3") = "mp3"
  /\ Js.pop (Js.split "." "voice") = "voice".
Proof.
  split.
  - exact (proj2 (proj2 (extension_is_after_last_dot "music/file_5.tar.mp3"))
             "music/file_5.tar" "mp3" eq_refl eq_refl).
  - exact (proj1 (proj2 (extension_is_after_last_dot "voice")) eq_refl).
Defined.

(** X19: when the composed text is split for Discord, every chunk but the
    last has exactly 2000 code units, and the last has between 1 and 2000:
    a text never goes out in more messages than needed. *)
Theorem chunks_but_last_are_full (s : string) (front : list string)
  (final : string) :
  Js.match_all DISCORD_LIMIT s = Some (front ++ [final]) ->
  Forall (fun chunk => String.length chunk = 2000) front
  /\ 0 < String.length final <= 2000.
Proof.
  intros Hm. split.
  - exact (JsMore.chunks_before_last_are_full DISCORD_LIMIT s front final Hm).
  - apply JsFacts.match_all_Some in Hm.
    assert (Hlimit : 0 < DISCORD_LIMIT) by (unfold DISCORD_LIMIT; lia).
    pose proof (JsFacts.matches_bounds DISCORD_LIMIT Hlimit
                  (String.length s) s) as Hb.
    rewrite <- Hm in Hb. apply Forall_app in Hb as [_ Hb].
    now inversion Hb.
Qed.

Lemma chunks_but_last_are_full_witness :
  Forall (fun chunk => String.length chunk = 2000)
    [Js.take 2000 (Sample.filler 4001);
     Js.take 2000 (Js.drop 2000 (Sample.filler 4001))]
  /\ 0 < String.length "x" <= 2000.
Proof.
  apply (chunks_but_last_are_full (Sample.filler 4001)).
  vm_compute. reflexivity.
Defined.

(** X21: the test for the chat info command gives the same answer for a
    text and for the text in lower case: the case of the letters of a
    message does not matter. *)
Theorem chatinfo_ignores_case (bot : option User) (m1 m2 : Message)
  (t : string) :
  text m1 = Some t ->
  text m2 = Some (Js.toLowerCase t) ->
  is_chatinfo bot m1 = is_chatinfo bot m2.
Proof.
  intros H1 H2. unfold is_chatinfo. rewrite H1, H2.
  destruct bot; [|reflexivity]. now rewrite JsMore.toLowerCase_idem.
Qed.

Lemma chatinfo_ignores_case_witness :
  is_chatinfo (Some Sample.tedi)
    (Sample.with_text "@TEDIBOT ChatInfo" (Sample.blank 1 1))
  = is_chatinfo (Some Sample.tedi)
      (Sample.with_text "@tedibot chatinfo" (Sample.blank 2 2)).
Proof.
  exact (chatinfo_ignores_case (Some Sample.tedi)
           (Sample.with_text "@TEDIBOT ChatInfo" (Sample.blank 1 1))
           (Sample.with_text "@tedibot chatinfo" (Sample.blank 2 2))
           "@TEDIBOT ChatInfo" eq_refl eq_refl).
Defined.

(** X12: the username of a name object tells the usernames of two users
    apart: equal texts come from equal usernames, and the placeholder
    [No username] is never the text of a user who has a username. *)
Theorem handle_is_unambiguous (u1 u2 : User) :
  nameObj_username (makeNameObject u1) = nameObj_username (makeNameObject u2) ->
  username u1 = username u2.
Proof.
  unfold makeNameObject. cbn [nameObj_username].
  destruct (username u1) as [a|], (username u2) as [b|]; intros H.
  - change (String "@" a = String "@" b) in H. now injection H as ->.
  - change (String "@" a = "No username") in H. discriminate H.
  - change ("No username" = String "@" b) in H. discriminate H.
  - reflexivity.
Qed.

Lemma handle_is_unambiguous_witness :
  let alicia := {| first_name := "Alicia"; last_name := None;
                   username := Some "alice" |} in
  let named := {| first_name := "Carol"; last_name := None;
                  username := Some "No username" |} in
  username Sample.alice = username alicia
  /\ nameObj_username (makeNameObject Sample.alice)
     <> nameObj_username (makeNameObject Sample.bob)
  /\ nameObj_username (makeNameObject named)
     <> nameObj_username (makeNameObject Sample.bob).
Proof.
  intros alicia named. split; [|split].
  - exact (handle_is_unambiguous Sample.alice alicia eq_refl).
  - intros H. apply handle_is_unambiguous in H. discriminate H.
  - intros H. apply handle_is_unambiguous in H. discriminate H.
Defined.

(** ** The polling offset *)

Lemma last_in_list {A} (l : list A) (x : A) : last l = Some x -> In x l.
Proof.
  induction l as [|y l IH]; [discriminate|].
  rewrite last_cons. destruct (last l) as [z|] eqn:Hl.
  - intros [= ->]. right. now apply IH.
  - intros [= ->]. now left.
Qed.

Lemma ascending_below_last (updates : list Update) (u : Update) :
  ascending (map update_id updates) ->
  last updates = Some u ->
  Forall (fun v => (update_id v <= update_id u)%Z) updates.
Proof.
  induction updates as [|x rest IH]; [constructor|].
  simpl. intros [Hx Hrest]. rewrite last_cons.
  destruct (last rest) as [z|] eqn:Hl.
  - intros [= ->]. constructor; [|now apply IH].
    apply last_in_list in Hl.
    rewrite Forall_forall in Hx.
    assert (update_id x < update_id u)%Z
      by (apply Hx, list_elem_of_In, in_map, Hl).
    lia.
  - intros [= ->]. constructor; [lia|].
    destruct rest as [|y rest]; [constructor|].
    rewrite last_cons in Hl. destruct (last rest); discriminate.
Qed.

Lemma number_add_one (z : Z) :
  (Z.abs z < 2 ^ 53)%Z -> number_add z 1 = (z + 1)%Z.
Proof.
  intros Hz. unfold number_add, number_round.
  destruct (Z.abs (z + 1) <? 2 ^ 53)%Z eqn:Hlt; [reflexivity|].
  apply Z.ltb_ge in Hlt.
  assert (Hmax : (z + 1 = 2 ^ 53)%Z) by lia.
  rewrite Hmax. vm_compute. reflexivity.
Qed.

(** X16: the offset [setup] gives to the polling.  Without
    [skipOldMessages] it is 0 whatever [getUpdates] does.  With it, a
    rejection of [getUpdates] is thrown on; for no update the offset is 0;
    otherwise, for an id of the last update below 2 ^ 53 in size, where the
    sum of JavaScript is exact, it is one more than that id, and when the
    ids are in ascending order every update of the batch is below it. *)
Theorem old_updates_are_skipped (settings : Settings) (w : World) :
  (skipOldMessages settings = false ->
   forall p, initialPollOffset settings p w = (Normal 0%Z, w))
  /\ (skipOldMessages settings = true ->
      (forall e, initialPollOffset settings (Rejected e) w = (Throw e, w))
      /\ initialPollOffset settings (Fulfilled []) w = (Normal 0%Z, w)
      /\ forall updates u,
          last updates = Some u ->
          (Z.abs (update_id u) < 2 ^ 53)%Z ->
          initialPollOffset settings (Fulfilled updates) w
          = (Normal (update_id u + 1)%Z, w)
          /\ (ascending (map update_id updates) ->
              Forall (fun v => (update_id v < update_id u + 1)%Z) updates)).
Proof.
  unfold initialPollOffset. split; intros ->; [reflexivity|].
  split; [reflexivity|]. split; [reflexivity|].
  intros updates u Hlast Hsafe. split.
  - unfold clearOldMessages. rewrite bind_run with (a := updates) (w' := w)
      by reflexivity.
    now rewrite Hlast, number_add_one.
  - intros Hasc.
    eapply Forall_impl; [exact (ascending_below_last updates u Hasc Hlast)|].
    intros v Hv. simpl in Hv. lia.
Qed.

Lemma old_updates_are_skipped_witness :
  let updates := [{| update_id := 41 |}; {| update_id := 42 |};
                  {| update_id := 45 |}] in
  initialPollOffset Sample.settings_off (Fulfilled updates) Sample.start
  = (Normal 0%Z, Sample.start)
  /\ initialPollOffset {| skipOldMessages := true;
                          sendEmojiWithStickers := false |}
       (Fulfilled updates) Sample.start
     = (Normal 46%Z, Sample.start)
  /\ Forall (fun v => (update_id v < 46)%Z) updates.
Proof.
  intros updates.
  assert (Hsafe : (Z.abs 45 < 2 ^ 53)%Z) by (vm_compute; reflexivity).
  split; [|split].
  - exact (proj1 (old_updates_are_skipped Sample.settings_off Sample.start)
             eq_refl (Fulfilled updates)).
  - exact (proj1 (proj2 (proj2 (proj2 (old_updates_are_skipped
             {| skipOldMessages := true; sendEmojiWithStickers := false |}
             Sample.start) eq_refl)) updates {| update_id := 45 |} eq_refl
             Hsafe)).
  - apply (proj2 (proj2 (proj2 (proj2 (old_updates_are_skipped
             {| skipOldMessages := true; sendEmojiWithStickers := false |}
             Sample.start) eq_refl)) updates {| update_id := 45 |} eq_refl
             Hsafe)).
    simpl. repeat constructor; lia.
Defined.

(** At 2 ^ 53 the sum is not exact any more: the offset is the id of the
    last update itself. *)
Example offset_at_two_to_53 :
  initialPollOffset {| skipOldMessages := true;
                       sendEmojiWithStickers := false |}
    (Fulfilled [{| update_id := 9007199254740992 |}]) Sample.start
  = (Normal 9007199254740992%Z, Sample.start).
Proof. vm_compute. reflexivity. Qed.

(** ** More on the wrapper *)

(** X10: a context with no message, no channel post and no edited message
    makes the wrapper throw a [TypeError] to its caller; nothing is sent and
    the handler is not called. *)
Theorem wrapper_without_message (env : Environment)
  (bridgeMap : gmap Z Bridge) (func : Message -> Bridge -> M unit)
  (ctx : TelegrafContext) (w : World) :
  ctx_message ctx = None ->
  ctx_channel_post ctx = None ->
  ctx_editedMessage ctx = None ->
  createMessageHandler env bridgeMap func ctx w
  = (Throw (TypeError "Cannot read property 'text' of undefined"), w).
Proof.
  intros H1 H2 H3. unfold createMessageHandler, ctx_payload.
  now rewrite H1, H2, H3.
Qed.

Lemma wrapper_without_message_witness :
  createMessageHandler Sample.env_up Sample.bridges
    (relay Sample.env_up Sample.settings_off Sample.converter
       Sample.extensions on_text)
    {| ctx_message := None; ctx_channel_post := None;
       ctx_editedMessage := None |}
    Sample.start
  = (Throw (TypeError "Cannot read property 'text' of undefined"),
     Sample.start).
Proof.
  exact (wrapper_without_message Sample.env_up Sample.bridges _
           {| ctx_message := None; ctx_channel_post := None;
              ctx_editedMessage := None |}
           Sample.start eq_refl eq_refl eq_refl).
Defined.

(** X11: a message that is not the chat info command, from a chat whose
    bridge does not relay from Discord to Telegram only, is handed to the
    handler with its bridge, and the wrapper does nothing else: the outcome
    is the one of the handler. *)
Theorem wrapper_passes_on (env : Environment) (bridgeMap : gmap Z Bridge)
  (func : Message -> Bridge -> M unit) (ctx : TelegrafContext)
  (m : Message) (b : Bridge) (w : World) :
  ctx_payload ctx = Some m ->
  is_chatinfo (me w) m = false ->
  fromTelegramChatId bridgeMap (chat_id (chat m)) = Some b ->
  direction b <> DIRECTION_DISCORD_TO_TELEGRAM ->
  createMessageHandler env bridgeMap func ctx w = func m b w.
Proof.
  intros Hp Hc Hb Hd. rewrite (wrapper_bridge env _ _ _ m b) by assumption.
  now rewrite decide_False.
Qed.

Lemma wrapper_passes_on_witness :
  let m := Sample.with_text "hello" (Sample.blank 7 1) in
  let func := relay Sample.env_up Sample.settings_off Sample.converter
                Sample.extensions on_text in
  createMessageHandler Sample.env_up Sample.bridges func
    {| ctx_message := None; ctx_channel_post := Some m;
       ctx_editedMessage := None |}
    Sample.start
  = func m Sample.lounge Sample.start.
Proof.
  intros m func.
  refine (wrapper_passes_on Sample.env_up Sample.bridges func
            {| ctx_message := None; ctx_channel_post := Some m;
               ctx_editedMessage := None |}
            m Sample.lounge Sample.start eq_refl eq_refl eq_refl _).
  discriminate.
Defined.

(** ** Users who leave *)

(** X1: with [relayLeaveMessages] off a leave event changes nothing; with
    it on, when the Discord bot is ready and the channel exists, the
    handler makes one call of [send] with the notice of the user who left,
    which holds the display name and the handle, and writes a log line of
    the bridge when the call is rejected. *)
Theorem leave_notices (env : Environment) (m : Message) (b : Bridge)
  (w : World) :
  (relayLeaveMessages (telegram b) = false ->
   left_chat_member_handler env m b w = (Normal tt, w))
  /\ (relayLeaveMessages (telegram b) = true ->
      forall u,
        left_chat_member m = Some u ->
        dcBot_ready env = Fulfilled tt ->
        dcBot_channels env (channelId (discord b)) = true ->
        let body :=
          "**" +:+ display_name u +:+ " (" +:+ handle u
          +:+ ")** left the Telegram side of the chat" in
        let r := channel_send env (trace w) (channelId (discord b)) body None in
        left_chat_member_handler env m b w
        = (Normal tt,
           after w
             (DcSend (channelId (discord b)) body None r
              :: match r with
                 | Fulfilled _ => []
                 | Rejected e =>
                     [LogError
                        (tag b
                         +:+ "Could not notify Discord about a user that left Telegram")
                        [ArgErr e]]
                 end)
             (messageMap w))).
Proof.
  split.
  - unfold left_chat_member_handler. now intros ->.
  - intros Hflag u Hu Hready Hchan body r.
    unfold left_chat_member_handler. rewrite Hflag. simpl.
    rewrite Hu, bind_defined_run. unfold tryCatch, await_ready, channels_get.
    rewrite Hready, Hchan.
    erewrite bind_run; [|reflexivity].
    unfold bind. rewrite send_run. cbv zeta.
    assert (Hbody : leave_text u = body).
    { unfold leave_text, body. cbv zeta.
      now rewrite makeNameObject_name, makeNameObject_username. }
    rewrite Hbody. fold r. destruct r as [i|e].
    + reflexivity.
    + unfold logger_error. now rewrite emit_run, after_after.
Qed.

Lemma leave_notices_witness :
  let m := More.with_left Sample.bob (Sample.blank 11 1) in
  let quiet := Sample.bridge_of "quiet" DIRECTION_BOTH 1 "100" false in
  left_chat_member_handler Sample.env_up m quiet Sample.start
  = (Normal tt, Sample.start)
  /\ left_chat_member_handler Sample.env_up m Sample.lounge Sample.start
     = (Normal tt,
        after Sample.start
          [DcSend "100"
             "**Bob (No username)** left the Telegram side of the chat"
             None (Fulfilled "dc-0")]
          ∅).
Proof.
  intros m quiet. split.
  - exact (proj1 (leave_notices Sample.env_up m quiet Sample.start) eq_refl).
  - exact (proj2 (leave_notices Sample.env_up m Sample.lounge Sample.start)
             eq_refl Sample.bob eq_refl eq_refl eq_refl).
Defined.

(** ** Photos, documents and videos *)

(** X2: of the sizes of a photo the last one is relayed: its file is asked
    from Telegram and goes to the channel of the bridge under the name
    [photo.jpg], with the caption of the message when there is one. *)
Theorem photo_relay (env : Environment)
  (messageConverter : Message -> Bridge -> MessageObj) (m : Message)
  (b : Bridge) (w : World) (front : list PhotoSize) (size : PhotoSize)
  (f : File) (l : string) :
  photo m = Some (front ++ [size]) ->
  dcBot_ready env = Fulfilled tt ->
  dcBot_channels env (channelId (discord b)) = true ->
  (forall h, telegram_getFile env h (photo_file_id size) = Fulfilled f) ->
  (forall h, telegram_getFileLink env h (photo_file_id size) = Fulfilled l) ->
  exists r,
    photo_handler env messageConverter m b w
    = (Normal tt,
       after w
         ([TgGetFile (photo_file_id size) (Fulfilled f);
           TgGetFileLink (photo_file_id size) (Fulfilled l);
           DcSend (channelId (discord b))
             ("**" +:+ obj_from (messageConverter m b) +:+ "**:" +:+ Js.nl
              +:+ default EmptyString (caption m))
             (Some {| att_link := l; att_name := "photo.jpg" |})
             r]
          ++ match r with
             | Fulfilled _ => []
             | Rejected e =>
                 [LogError (tag b +:+ "Could not send photo") [ArgErr e]]
             end)
         (messageMap w)).
Proof.
  intros Hphoto Hready Hchan Hfile Hlink.
  set (arg := {| arg_message := m;
                 arg_fileId := photo_file_id size;
                 arg_fileName := Some "photo.jpg";
                 arg_caption := caption m;
                 arg_resolveExtension := None |}).
  destruct (try_sendFile_run env messageConverter b arg w f l EmptyString
              (tag b +:+ "Could not send photo")
              Hready Hchan Hfile Hlink eq_refl) as [r Hr].
  exists r.
  transitivity
    (tryCatch (sendFile env messageConverter b arg)
       (fun err =>
          logger_error (tag b +:+ "Could not send photo") [ArgErr err]) w).
  - unfold photo_handler, tryCatch. rewrite Hphoto, bind_defined_run.
    rewrite map_app. simpl (map Some [size]).
    now rewrite List.last_last, bind_defined_run.
  - rewrite Hr. reflexivity.
Qed.

Lemma photo_relay_witness :
  let m := More.with_caption "the garden"
             (Sample.with_photo [{| photo_file_id := "small" |};
                                 {| photo_file_id := "large" |}]
                (Sample.blank 6 1)) in
  exists r,
    photo_handler Sample.env_up Sample.converter m Sample.lounge Sample.start
    = (Normal tt,
       after Sample.start
         ([TgGetFile "large"
             (Fulfilled {| file_path := Some "music/large.ogg" |});
           TgGetFileLink "large"
             (Fulfilled "https://api.telegram.org/file/large");
           DcSend "100" ("**Alice**:" +:+ Js.nl +:+ "the garden")
             (Some {| att_link := "https://api.telegram.org/file/large";
                      att_name := "photo.jpg" |})
             r]
          ++ match r with
             | Fulfilled _ => []
             | Rejected e =>
                 [LogError "[lounge] Could not send photo" [ArgErr e]]
             end)
         ∅).
Proof.
  intros m.
  exact (photo_relay Sample.env_up Sample.converter m
           Sample.lounge Sample.start [{| photo_file_id := "small" |}]
           {| photo_file_id := "large" |}
           {| file_path := Some "music/large.ogg" |}
           "https://api.telegram.org/file/large"
           eq_refl eq_refl eq_refl (fun _ => eq_refl) (fun _ => eq_refl)).
Defined.

(** X3: a photo with no size at all, and a sticker without a thumbnail, are
    not relayed: whatever the platforms would answer, no call is made to
    either of them, and the handler writes one log line of the bridge with
    the [TypeError]. *)
Theorem nothing_to_fetch (env : Environment) (settings : Settings)
  (messageConverter : Message -> Bridge -> MessageObj) (m : Message)
  (b : Bridge) (w : World) :
  (photo m = Some [] ->
   photo_handler env messageConverter m b w
   = (Normal tt,
      after w
        [LogError (tag b +:+ "Could not send photo")
           [ArgErr (TypeError "Cannot read property 'file_id' of undefined")]]
        (messageMap w)))
  /\ (forall st,
         sticker m = Some st ->
         sticker_thumb st = None ->
         sticker_handler env settings messageConverter m b w
         = (Normal tt,
            after w
              [LogError (tag b +:+ "Could not send sticker")
                 [ArgErr
                    (TypeError "Cannot read property 'file_id' of undefined")]]
              (messageMap w))).
Proof.
  split.
  - intros Hphoto. unfold photo_handler, tryCatch.
    now rewrite Hphoto, bind_defined_run.
  - intros st Hst Hth. unfold sticker_handler, tryCatch.
    now rewrite Hst, bind_defined_run, Hth.
Qed.

Lemma nothing_to_fetch_witness :
  let p := Sample.with_photo [] (Sample.blank 6 1) in
  let st := {| sticker_thumb := None; sticker_emoji := Some ":-)" |} in
  photo_handler Sample.env_up Sample.converter p Sample.lounge Sample.start
  = (Normal tt,
     after Sample.start
       [LogError "[lounge] Could not send photo"
          [ArgErr (TypeError "Cannot read property 'file_id' of undefined")]]
       ∅)
  /\ sticker_handler Sample.env_up Sample.settings_on Sample.converter
       (Sample.with_sticker st (Sample.blank 8 1)) Sample.lounge Sample.start
     = (Normal tt,
        after Sample.start
          [LogError "[lounge] Could not send sticker"
             [ArgErr
                (TypeError "Cannot read property 'file_id' of undefined")]]
          ∅).
Proof.
  intros p st. split.
  - exact (proj1 (nothing_to_fetch Sample.env_up Sample.settings_off
                    Sample.converter p Sample.lounge Sample.start) eq_refl).
  - exact (proj2 (nothing_to_fetch Sample.env_up Sample.settings_on
                    Sample.converter
                    (Sample.with_sticker st (Sample.blank 8 1))
                    Sample.lounge Sample.start) st eq_refl eq_refl).
Defined.

(** X4: a document goes out under the file name Telegram gives for it, and
    the table of content types is consulted only when there is none: then
    the name is [file.] followed by the extension of the declared type.
    There is no caption, and the path on the server is not consulted. *)
Theorem document_name (env : Environment)
  (messageConverter : Message -> Bridge -> MessageObj)
  (getExtension : option string -> option string) (m : Message) (b : Bridge)
  (w : World) (doc : Document) (f : File) (l : string) :
  document m = Some doc ->
  dcBot_ready env = Fulfilled tt ->
  dcBot_channels env (channelId (discord b)) = true ->
  (forall h, telegram_getFile env h (document_file_id doc) = Fulfilled f) ->
  (forall h, telegram_getFileLink env h (document_file_id doc) = Fulfilled l) ->
  exists r,
    document_handler env messageConverter getExtension m b w
    = (Normal tt,
       after w
         ([TgGetFile (document_file_id doc) (Fulfilled f);
           TgGetFileLink (document_file_id doc) (Fulfilled l);
           DcSend (channelId (discord b))
             ("**" +:+ obj_from (messageConverter m b) +:+ "**:" +:+ Js.nl)
             (Some {| att_link := l;
                      att_name :=
                        match document_file_name doc with
                        | Some n => n
                        | None =>
                            "file."
                            +:+ Js.of_null
                                  (getExtension (document_mime_type doc))
                        end |})
             r]
          ++ match r with
             | Fulfilled _ => []
             | Rejected e =>
                 [LogError (tag b +:+ "Could not send document") [ArgErr e]]
             end)
         (messageMap w)).
Proof.
  intros Hdoc Hready Hchan Hfile Hlink.
  set (fileName :=
         match document_file_name doc with
         | Some n => n
         | None =>
             "file." +:+ Js.of_null (getExtension (document_mime_type doc))
         end).
  set (arg := {| arg_message := m;
                 arg_fileId := document_file_id doc;
                 arg_fileName := Some fileName;
                 arg_caption := None;
                 arg_resolveExtension := Some false |}).
  destruct (try_sendFile_run env messageConverter b arg w f l EmptyString
              (tag b +:+ "Could not send document")
              Hready Hchan Hfile Hlink eq_refl) as [r Hr].
  exists r.
  transitivity
    (tryCatch (sendFile env messageConverter b arg)
       (fun err =>
          logger_error (tag b +:+ "Could not send document") [ArgErr err]) w).
  - unfold document_handler. now rewrite Hdoc, bind_defined_run.
  - rewrite Hr. unfold arg, file_text.
    cbn [arg_message arg_caption arg_fileName arg_fileId Js.of_undefined
         default from_option].
    now rewrite !append_empty_r.
Qed.

Lemma document_name_witness :
  let named := {| document_file_id := "doc-1";
                  document_file_name := Some "report.pdf";
                  document_mime_type := Some "audio/ogg" |} in
  let unnamed := {| document_file_id := "doc-2";
                    document_file_name := None;
                    document_mime_type := Some "audio/ogg" |} in
  let names (d : Document) :=
    map (fun c => att_name <$> snd c)
      (sent (trace (snd (document_handler Sample.env_up Sample.converter
                           Sample.extensions
                           (More.with_document d (Sample.blank 9 1))
                           Sample.lounge Sample.start)))) in
  names named = [Some "report.pdf"] /\ names unnamed = [Some "file.oga"].
Proof.
  intros named unnamed names. split.
  - destruct (document_name Sample.env_up Sample.converter Sample.extensions
                (More.with_document named (Sample.blank 9 1)) Sample.lounge
                Sample.start named
                {| file_path := Some "music/doc-1.ogg" |}
                "https://api.telegram.org/file/doc-1"
                eq_refl eq_refl eq_refl (fun _ => eq_refl)
                (fun _ => eq_refl)) as [r Hr].
    unfold names. rewrite Hr. now destruct r.
  - destruct (document_name Sample.env_up Sample.converter Sample.extensions
                (More.with_document unnamed (Sample.blank 9 1)) Sample.lounge
                Sample.start unnamed
                {| file_path := Some "music/doc-2.ogg" |}
                "https://api.telegram.org/file/doc-2"
                eq_refl eq_refl eq_refl (fun _ => eq_refl)
                (fun _ => eq_refl)) as [r Hr].
    unfold names. rewrite Hr. now destruct r.
Defined.

(** X5: a video goes out under the name [video.] followed by the extension
    that the table of content types gives for its declared type, with the
    caption of the message when there is one; the path on the server is not
    consulted. *)
Theorem video_name (env : Environment)
  (messageConverter : Message -> Bridge -> MessageObj)
  (getExtension : option string -> option string) (m : Message) (b : Bridge)
  (w : World) (v : Video) (f : File) (l : string) :
  video m = Some v ->
  dcBot_ready env = Fulfilled tt ->
  dcBot_channels env (channelId (discord b)) = true ->
  (forall h, telegram_getFile env h (video_file_id v) = Fulfilled f) ->
  (forall h, telegram_getFileLink env h (video_file_id v) = Fulfilled l) ->
  exists r,
    video_handler env messageConverter getExtension m b w
    = (Normal tt,
       after w
         ([TgGetFile (video_file_id v) (Fulfilled f);
           TgGetFileLink (video_file_id v) (Fulfilled l);
           DcSend (channelId (discord b))
             ("**" +:+ obj_from (messageConverter m b) +:+ "**:" +:+ Js.nl
              +:+ default EmptyString (caption m))
             (Some {| att_link := l;
                      att_name :=
                        "video."
                        +:+ Js.of_null (getExtension (video_mime_type v)) |})
             r]
          ++ match r with
             | Fulfilled _ => []
             | Rejected e =>
                 [LogError (tag b +:+ "Could not send video") [ArgErr e]]
             end)
         (messageMap w)).
Proof.
  intros Hv Hready Hchan Hfile Hlink.
  set (arg := {| arg_message := m;
                 arg_fileId := video_file_id v;
                 arg_fileName :=
                   Some ("video" +:+ "."
                         +:+ Js.of_null (getExtension (video_mime_type v)));
                 arg_caption := caption m;
                 arg_resolveExtension := Some false |}).
  destruct (try_sendFile_run env messageConverter b arg w f l EmptyString
              (tag b +:+ "Could not send video")
              Hready Hchan Hfile Hlink eq_refl) as [r Hr].
  exists r.
  transitivity
    (tryCatch (sendFile env messageConverter b arg)
       (fun err =>
          logger_error (tag b +:+ "Could not send video") [ArgErr err]) w).
  - unfold video_handler, tryCatch. now rewrite Hv, bind_defined_run.
  - rewrite Hr. unfold arg.
    cbn [arg_message arg_caption arg_fileName arg_fileId Js.of_undefined].
    now rewrite append_empty_r.
Qed.

Lemma video_name_witness :
  let v := {| video_file_id := "vid-1"; video_mime_type := Some "video/mp4" |} in
  let m := More.with_video v (Some "at the sea") (Sample.blank 9 1) in
  sent (trace (snd (video_handler Sample.env_up Sample.converter
                      Sample.extensions m Sample.lounge Sample.start)))
  = [("100", "**Alice**:" +:+ Js.nl +:+ "at the sea",
      Some {| att_link := "https://api.telegram.org/file/vid-1";
              att_name := "video.mp4" |})].
Proof.
  intros v m.
  destruct (video_name Sample.env_up Sample.converter Sample.extensions m
              Sample.lounge Sample.start v
              {| file_path := Some "music/vid-1.ogg" |}
              "https://api.telegram.org/file/vid-1"
              eq_refl eq_refl eq_refl (fun _ => eq_refl) (fun _ => eq_refl))
    as [r Hr].
  rewrite Hr. now destruct r.
Defined.

(** ** When the file sender fails *)

(** X6: when the Discord bot is ready, the file sender asks Telegram for
    the file and for its link, both, whatever the first answer is; when one
    of the two is rejected it throws the error of a rejected one, and no
    call goes to Discord. *)
Theorem telegram_failure_sends_nothing (env : Environment)
  (messageConverter : Message -> Bridge -> MessageObj) (b : Bridge)
  (arg : FileArg) (w : World) :
  dcBot_ready env = Fulfilled tt ->
  let r1 := telegram_getFile env (trace w) (arg_fileId arg) in
  let r2 :=
    telegram_getFileLink env (trace w ++ [TgGetFile (arg_fileId arg) r1])
      (arg_fileId arg) in
  (exists e1, r1 = Rejected e1) \/ (exists e2, r2 = Rejected e2) ->
  exists e,
    (r1 = Rejected e \/ r2 = Rejected e)
    /\ sendFile env messageConverter b arg w
       = (Throw e,
          after w
            [TgGetFile (arg_fileId arg) r1; TgGetFileLink (arg_fileId arg) r2]
            (messageMap w)).
Proof.
  intros Hready r1 r2 Hfail. unfold sendFile.
  erewrite bind_run; [|unfold await_ready; rewrite Hready; reflexivity].
  erewrite bind_run; [|apply perform_run]. cbv beta.
  erewrite bind_run; [|apply perform_run]. cbv beta.
  rewrite trace_after, messageMap_after, after_after.
  fold r1. fold r2. simpl ([_] ++ [_]).
  destruct r1 as [f|e1].
  - destruct r2 as [l|e2].
    + destruct Hfail as [[e He]|[e He]]; discriminate He.
    + exists e2. split; [now right | reflexivity].
  - exists e1. split; [now left | reflexivity].
Qed.

Lemma telegram_failure_sends_nothing_witness :
  let arg := {| arg_message := Sample.blank 9 1; arg_fileId := "pic-1";
                arg_fileName := Some "photo.jpg"; arg_caption := None;
                arg_resolveExtension := None |} in
  exists e,
    (@Rejected File (Rejection "Bad Request") = Rejected e
     \/ @Rejected string (Rejection "Bad Request") = Rejected e)
    /\ sendFile Sample.env_no_files Sample.converter Sample.lounge arg
         Sample.start
       = (Throw e,
          after Sample.start
            [TgGetFile "pic-1" (Rejected (Rejection "Bad Request"));
             TgGetFileLink "pic-1" (Rejected (Rejection "Bad Request"))]
            ∅).
Proof.
  intros arg.
  exact (telegram_failure_sends_nothing Sample.env_no_files Sample.converter
           Sample.lounge arg Sample.start eq_refl
           (or_introl (ex_intro _ (Rejection "Bad Request") eq_refl))).
Defined.

(** X7: an audio file for which Telegram gives a file object without a path
    is not relayed: after the two calls to Telegram the extension cannot be
    read, no call goes to Discord, and the handler writes one log line of
    the bridge with the [TypeError]. *)
Theorem audio_without_path (env : Environment)
  (messageConverter : Message -> Bridge -> MessageObj) (m : Message)
  (b : Bridge) (w : World) (a : Audio) (f : File) (l : string) :
  audio m = Some a ->
  dcBot_ready env = Fulfilled tt ->
  (forall h, telegram_getFile env h (audio_file_id a) = Fulfilled f) ->
  (forall h, telegram_getFileLink env h (audio_file_id a) = Fulfilled l) ->
  file_path f = None ->
  audio_handler env messageConverter m b w
  = (Normal tt,
     after w
       [TgGetFile (audio_file_id a) (Fulfilled f);
        TgGetFileLink (audio_file_id a) (Fulfilled l);
        LogError (tag b +:+ "Could not send audio")
          [ArgErr (TypeError "Cannot read property 'split' of undefined")]]
       (messageMap w)).
Proof.
  intros Ha Hready Hfile Hlink Hpath. unfold audio_handler, tryCatch.
  rewrite Ha, bind_defined_run. unfold sendFile.
  erewrite bind_run; [|unfold await_ready; rewrite Hready; reflexivity].
  erewrite bind_run; [|apply perform_run]. cbv beta.
  erewrite bind_run; [|apply perform_run]. cbv beta.
  cbn [arg_fileId arg_resolveExtension default from_option].
  rewrite trace_after, messageMap_after, after_after, Hfile, Hlink.
  erewrite bind_run; [|reflexivity].
  erewrite bind_run; [|reflexivity].
  erewrite bind_throw_run; [|rewrite Hpath; reflexivity].
  unfold logger_error. now rewrite emit_run, after_after.
Qed.

Lemma audio_without_path_witness :
  let a := {| audio_file_id := "aud-1"; audio_title := Some "Song";
              audio_mime_type := Some "audio/mpeg" |} in
  audio_handler More.env_no_path Sample.converter
    (Sample.with_audio a (Sample.blank 9 1)) Sample.lounge Sample.start
  = (Normal tt,
     after Sample.start
       [TgGetFile "aud-1" (Fulfilled {| file_path := None |});
        TgGetFileLink "aud-1"
          (Fulfilled "https://api.telegram.org/file/aud-1");
        LogError "[lounge] Could not send audio"
          [ArgErr (TypeError "Cannot read property 'split' of undefined")]]
       ∅).
Proof.
  intros a.
  exact (audio_without_path More.env_no_path Sample.converter
           (Sample.with_audio a (Sample.blank 9 1)) Sample.lounge
           Sample.start a {| file_path := None |}
           "https://api.telegram.org/file/aud-1"
           eq_refl eq_refl (fun _ => eq_refl) (fun _ => eq_refl) eq_refl).
Defined.

(** ** More on texts and edits *)

(** X14: a composed text that is empty is not relayed: the match for the
    chunks is [null], so when the Discord bot is ready the handler makes no
    call, leaves the map as it is and writes its two log lines with the
    [TypeError]. *)
Theorem empty_text_is_logged (env : Environment)
  (messageConverter : Message -> Bridge -> MessageObj) (m : Message)
  (b : Bridge) (w : World) :
  dcBot_ready env = Fulfilled tt ->
  composed (messageConverter m b) = EmptyString ->
  text_handler env messageConverter m b w
  = (Normal tt,
     after w (text_logs m b (TypeError "chunks is not iterable"))
       (messageMap w)).
Proof.
  intros Hready Hempty. unfold text_handler, tryCatch. cbv zeta.
  erewrite bind_run; [|unfold await_ready; rewrite Hready; reflexivity].
  rewrite Hempty.
  erewrite bind_throw_run; [|reflexivity].
  apply text_catch_run.
Qed.

Lemma empty_text_is_logged_witness :
  let m := Sample.with_text "hello" (Sample.blank 5 1) in
  let silent (_ : Message) (_ : Bridge) :=
    {| obj_from := "Alice"; composed := EmptyString |} in
  text_handler Sample.env_up silent m Sample.lounge Sample.start
  = (Normal tt,
     after Sample.start
       [LogError "[lounge] Discord did not accept a text message:"
          [ArgErr (TypeError "chunks is not iterable")];
        LogError "[lounge] Failed message:" [ArgText (Some "hello")]]
       ∅).
Proof.
  intros m silent.
  exact (empty_text_is_logged Sample.env_up silent m Sample.lounge
           Sample.start eq_refl eq_refl).
Defined.

(** X20: a composed text of 1 to 2000 code units goes out whole, in one
    message: when the Discord bot is ready and the channel exists there is
    one call of [send] with the text; when it is fulfilled the id of the new
    message is put in the map, and when it is rejected the map stays as it
    is and the two log lines follow. *)
Theorem short_text_one_message (env : Environment)
  (messageConverter : Message -> Bridge -> MessageObj) (m : Message)
  (b : Bridge) (w : World) :
  dcBot_ready env = Fulfilled tt ->
  dcBot_channels env (channelId (discord b)) = true ->
  0 < String.length (composed (messageConverter m b)) <= 2000 ->
  let c := channelId (discord b) in
  let body := composed (messageConverter m b) in
  let r := channel_send env (trace w) c body None in
  text_handler env messageConverter m b w
  = (Normal tt,
     match r with
     | Fulfilled d =>
         after w [DcSend c body None (Fulfilled d)]
           (<[(TELEGRAM_TO_DISCORD, message_id m) := d]> (messageMap w))
     | Rejected e =>
         after w (DcSend c body None (Rejected e) :: text_logs m b e)
           (messageMap w)
     end).
Proof.
  intros Hready Hchan Hlen c body r. unfold text_handler, tryCatch. cbv zeta.
  erewrite bind_run; [|unfold await_ready; rewrite Hready; reflexivity].
  rewrite (JsMore.match_all_short DISCORD_LIMIT) by exact Hlen.
  rewrite bind_defined_run. unfold channels_get. rewrite Hchan.
  fold c. fold body. simpl (for_of [body] _ None).
  destruct r as [d|e] eqn:Hr; subst r.
  - erewrite bind_run;
      [|erewrite bind_run;
        [reflexivity
        |erewrite bind_run;
          [reflexivity | rewrite send_run; cbv zeta; rewrite Hr; reflexivity]]].
    rewrite bind_defined_run. unfold messageMap_insert.
    now rewrite set_messageMap_after, after_after, app_nil_r, messageMap_after.
  - erewrite bind_throw_run;
      [|erewrite bind_throw_run;
        [reflexivity
        |erewrite bind_throw_run;
          [reflexivity | rewrite send_run; cbv zeta; rewrite Hr; reflexivity]]].
    now rewrite text_catch_run, after_after.
Qed.

Lemma short_text_one_message_witness :
  let m := Sample.with_text "hello" (Sample.blank 5 1) in
  text_handler Sample.env_up Sample.converter m Sample.lounge Sample.start
  = (Normal tt,
     after Sample.start
       [DcSend "100" "**Alice**: hello" None (Fulfilled "dc-0")]
       (<[(TELEGRAM_TO_DISCORD, 5%Z) := "dc-0"]> ∅)).
Proof.
  intros m.
  refine (short_text_one_message Sample.env_up Sample.converter m
            Sample.lounge Sample.start eq_refl eq_refl _).
  vm_compute. split; [lia | repeat constructor].
Defined.

(** X15: an edit after a relayed text reaches the last message of the text.
    When the Discord bot is ready, the channel exists and Discord accepts
    the messages and the fetch, a text that is not empty is sent in its
    chunks, and an edit of a message with the same id then fetches the
    Discord message of the last chunk and edits it with the new composed
    text, in one piece. *)
Theorem edit_after_text (env : Environment)
  (messageConverter : Message -> Bridge -> MessageObj) (m m' : Message)
  (b : Bridge) (w : World) :
  let c := channelId (discord b) in
  let chunks :=
    default [] (Js.match_all DISCORD_LIMIT (composed (messageConverter m b))) in
  dcBot_ready env = Fulfilled tt ->
  dcBot_channels env c = true ->
  (forall h body, exists i, channel_send env h c body None = Fulfilled i) ->
  (forall h id, channel_fetchMessage env h c id = Fulfilled tt) ->
  composed (messageConverter m b) <> EmptyString ->
  message_id m' = message_id m ->
  exists w1 ids d r,
    text_handler env messageConverter m b w = (Normal tt, w1)
    /\ trace w1 = trace w ++ fulfilled_sends c chunks ids
    /\ length ids = length chunks
    /\ last ids = Some d
    /\ edited_message_handler env messageConverter m' b w1
       = (Normal tt,
          after w1
            ([DcFetchMessage c d (Fulfilled tt);
              DcEdit d (composed (messageConverter m' b)) r]
             ++ match r with
                | Fulfilled _ => []
                | Rejected e =>
                    [LogError (tag b +:+ "Could not edit Discord message:")
                       [ArgErr e]]
                end)
            (messageMap w1)).
Proof.
  intros c chunks Hready Hchan Hsend Hfetch Hne Hid.
  destruct (text_handler_run env messageConverter m b w)
    as (evs & mm & Hrun & _ & _ & Hok).
  destruct (Hok Hready Hchan Hsend Hne) as (ids & d & Hlen & Hevs & Hlast & Hmm).
  assert (Hhit :
    messageMap (after w evs mm) !! (TELEGRAM_TO_DISCORD, message_id m')
    = Some d).
  { rewrite messageMap_after, Hmm, Hid. apply lookup_insert_eq. }
  destruct (edit_hit env messageConverter m' b (after w evs mm) d Hhit)
    as (evs' & Hedit & _ & Hexact).
  destruct (Hexact Hready Hchan (Hfetch _ _)) as [r Hr].
  exists (after w evs mm), ids, d, r.
  split; [exact Hrun|]. split; [now rewrite trace_after, Hevs|].
  split; [exact Hlen|]. split; [exact Hlast|].
  rewrite Hedit, Hr. reflexivity.
Qed.

Lemma edit_after_text_witness :
  let m := Sample.with_text (Sample.filler 4000) (Sample.blank 5 1) in
  let m' := Sample.with_text "short now" (Sample.blank 5 1) in
  exists w1 ids d r,
    text_handler Sample.env_up Sample.converter m Sample.lounge Sample.start
    = (Normal tt, w1)
    /\ trace w1
       = trace Sample.start
         ++ fulfilled_sends "100"
              (default []
                 (Js.match_all DISCORD_LIMIT
                    (composed (Sample.converter m Sample.lounge))))
              ids
    /\ length ids = 3
    /\ last ids = Some d
    /\ edited_message_handler Sample.env_up Sample.converter m' Sample.lounge
         w1
       = (Normal tt,
          after w1
            ([DcFetchMessage "100" d (Fulfilled tt);
              DcEdit d "**Alice**: short now" r]
             ++ match r with
                | Fulfilled _ => []
                | Rejected e =>
                    [LogError "[lounge] Could not edit Discord message:"
                       [ArgErr e]]
                end)
            (messageMap w1)).
Proof.
  intros m m'.
  refine (edit_after_text Sample.env_up Sample.converter m m' Sample.lounge
            Sample.start eq_refl eq_refl _ _ _ eq_refl).
  - intros h body. eexists. reflexivity.
  - intros h id. reflexivity.
  - discriminate.
Defined.

(** ** Handlers that stay away from a platform *)

Section Only.

Variable P : Event -> Prop.

Lemma only_ret {A} (a : A) : only P (ret a).
Proof. intros w. exists []. simpl. now rewrite after_nil. Qed.

Lemma only_throw {A} (e : JsError) : only P (@throw A e).
Proof. intros w. exists []. simpl. now rewrite after_nil. Qed.

Lemma only_await {A} (p : Settled A) : only P (await p).
Proof. destruct p; [apply only_ret | apply only_throw]. Qed.

Lemma only_defined {A} (o : option A) (what : string) :
  only P (defined o what).
Proof. destruct o; [apply only_ret | apply only_throw]. Qed.

Lemma only_bind {A B} (m : M A) (k : A -> M B) :
  only P m -> (forall a, only P (k a)) -> only P (bind m k).
Proof.
  intros Hm Hk w. unfold bind.
  destruct (Hm w) as (e1 & Hw & H1).
  destruct (m w) as [[a|err] w1]; simpl in Hw; subst w1.
  - destruct (Hk a (after w e1 (messageMap w))) as (e2 & Hw2 & H2).
    exists (e1 ++ e2). rewrite Hw2, messageMap_after, after_after.
    split; [reflexivity | now apply Forall_app].
  - exists e1. now split.
Qed.

(** What follows a step that always throws does not matter. *)
Lemma only_bind_throws {A B} (m : M A) (k : A -> M B) :
  (forall w, exists e, m w = (Throw e, w)) -> only P (bind m k).
Proof.
  intros Hm w. destruct (Hm w) as [e He]. exists [].
  rewrite (bind_throw_run _ _ _ _ _ He). simpl. now rewrite after_nil.
Qed.

Lemma only_perform {A} (answer : list Event -> Settled A)
  (record : Settled A -> Event) :
  (forall r, P (record r)) -> only P (perform answer record).
Proof.
  intros Hrec w. exists [record (answer (trace w))].
  rewrite perform_run. split; [reflexivity | repeat constructor; apply Hrec].
Qed.

Lemma only_getCorresponding (d : MapDirection) (i : Z) :
  only P (messageMap_getCorresponding d i).
Proof.
  intros w. exists []. unfold messageMap_getCorresponding.
  destruct (messageMap w !! (d, i)); simpl; now rewrite after_nil.
Qed.

Lemma calm_ret : calm P (ret tt).
Proof. intros w. exists []. now rewrite after_nil. Qed.

Lemma calm_log (line : string) (args : list LogArg) :
  P (LogError line args) -> calm P (logger_error line args).
Proof.
  intros Hp w. exists [LogError line args]. split; [reflexivity|].
  now repeat constructor.
Qed.

Lemma calm_bind (m k : M unit) :
  calm P m -> calm P k -> calm P (let* _ := m in k).
Proof.
  intros Hm Hk w. destruct (Hm w) as (e1 & H1 & Hp1).
  destruct (Hk (after w e1 (messageMap w))) as (e2 & H2 & Hp2).
  exists (e1 ++ e2). rewrite (bind_run _ _ _ _ _ H1), H2.
  rewrite messageMap_after, after_after.
  split; [reflexivity | now apply Forall_app].
Qed.

Lemma calm_try (body : M unit) (h : JsError -> M unit) :
  only P body -> (forall err, calm P (h err)) -> calm P (tryCatch body h).
Proof.
  intros Hbody Hh w. unfold tryCatch.
  destruct (Hbody w) as (e1 & Hw & H1).
  destruct (body w) as [[[]|err] w1]; simpl in Hw; subst w1.
  - exists e1. now split.
  - destruct (Hh err (after w e1 (messageMap w))) as (e2 & H2 & Hp2).
    exists (e1 ++ e2). rewrite H2, messageMap_after, after_after.
    split; [reflexivity | now apply Forall_app].
Qed.

Lemma calm_async (m : M unit) : calm P m -> calm P (async m).
Proof.
  intros Hm w. destruct (Hm w) as (evs & Hrun & Hp).
  exists evs. unfold async. rewrite Hrun. now split.
Qed.

Lemma calm_forEach {A} (l : list A) (f : A -> M unit) :
  (forall x, calm P (f x)) -> calm P (forEach l f).
Proof.
  intros Hf. induction l as [|x l IH]; simpl; [apply calm_ret|].
  now apply calm_bind.
Qed.

End Only.

Lemma no_destination_calls (evs : list Event) :
  Forall (fun e => to_discord e = false) evs -> destination_calls evs = [].
Proof.
  induction 1 as [|e evs He _ IH]; [reflexivity|].
  unfold destination_calls in *. simpl.
  destruct e; simpl in He; try discriminate He; exact IH.
Qed.

Section Gates.

Variable env : Environment.
Variable settings : Settings.
Variable messageConverter : Message -> Bridge -> MessageObj.
Variable getExtension : option string -> option string.

Lemma await_ready_throws (e0 : JsError) :
  dcBot_ready env = Rejected e0 ->
  forall w, exists e, await_ready env w = (Throw e, w).
Proof. intros H w. exists e0. unfold await_ready. now rewrite H. Qed.

Lemma send_none_throws (body : string) (file : option Attachment) :
  forall w, exists e, send env None body file w = (Throw e, w).
Proof. intros w. eexists. reflexivity. Qed.

Lemma fetch_none_throws (id : string) :
  forall w, exists e, fetchMessage env None id w = (Throw e, w).
Proof. intros w. eexists. reflexivity. Qed.

(** Before the Discord bot is ready no handler calls a platform. *)
Lemma relay_not_ready (e0 : JsError) (k : EventName) (m : Message)
  (b : Bridge) :
  dcBot_ready env = Rejected e0 ->
  carries k m ->
  calm (fun e => is_call e = false)
    (relay env settings messageConverter getExtension k m b).
Proof.
  intros Hready Hfield.
  pose proof (await_ready_throws e0 Hready) as Hthrow.
  assert (Hfile : forall arg,
             only (fun e => is_call e = false)
               (sendFile env messageConverter b arg))
    by (intros arg; unfold sendFile; now apply only_bind_throws).
  assert (Hlog : forall line args,
             calm (fun e => is_call e = false) (logger_error line args))
    by (intros line args; now apply calm_log).
  destruct k; simpl.
  - apply calm_async, calm_try; [now apply only_bind_throws|].
    intros err. apply calm_bind; apply Hlog.
  - apply calm_async, calm_try; [|intros err; apply Hlog].
    apply only_bind; [apply only_defined|]. intros sizes.
    apply only_bind; [apply only_defined|]. intros size. apply Hfile.
  - apply calm_async, calm_try; [|intros err; apply Hlog].
    apply only_bind; [apply only_defined|]. intros st.
    apply only_bind; [apply only_defined|]. intros th. apply Hfile.
  - apply calm_async. unfold document_handler.
    destruct Hfield as [doc ->]. intros w. rewrite bind_defined_run.
    revert w. apply calm_try; [apply Hfile | intros err; apply Hlog].
  - apply calm_async, calm_try; [|intros err; apply Hlog].
    apply only_bind; [apply only_defined|]. intros v. apply Hfile.
  - apply calm_async, calm_try; [|intros err; apply Hlog].
    apply only_bind; [apply only_defined|]. intros a. apply Hfile.
  - apply calm_async, calm_try; [|intros err; apply Hlog].
    apply only_bind; [apply only_defined|]. intros v. apply Hfile.
  - unfold new_chat_members_handler.
    destruct (relayJoinMessages (telegram b)); simpl; [|apply calm_ret].
    destruct Hfield as [users ->]. intros w. rewrite bind_defined_run.
    revert w. apply calm_forEach. intros user.
    apply calm_async, calm_try; [|intros err; apply Hlog].
    now apply only_bind_throws.
  - apply calm_async. unfold left_chat_member_handler.
    destruct (relayLeaveMessages (telegram b)); simpl; [|apply calm_ret].
    destruct Hfield as [user ->]. intros w. rewrite bind_defined_run.
    revert w. apply calm_try; [|intros err; apply Hlog].
    now apply only_bind_throws.
  - apply calm_async, calm_try; [|intros err; apply Hlog].
    now apply only_bind_throws.
Qed.

(** Without the channel the file sender calls Telegram only. *)
Lemma sendFile_no_channel (b : Bridge) (arg : FileArg) :
  dcBot_channels env (channelId (discord b)) = false ->
  only (fun e => to_discord e = false) (sendFile env messageConverter b arg).
Proof.
  intros Hchan. unfold sendFile, channels_get. rewrite Hchan.
  apply only_bind; [apply only_await|]. intros _.
  apply only_bind; [now apply only_perform|]. intros p1.
  apply only_bind; [now apply only_perform|]. intros p2.
  apply only_bind; [apply only_await|]. intros file.
  apply only_bind; [apply only_await|]. intros fileLink.
  apply only_bind.
  - destruct (default false (arg_resolveExtension arg)); [|apply only_ret].
    apply only_bind; [apply only_defined | intros path; apply only_ret].
  - intros extension. apply only_bind_throws, send_none_throws.
Qed.

(** Without the channel the [try] block of the handler for text throws
    before anything happens. *)
Lemma text_body_no_channel (m : Message) (b : Bridge) :
  dcBot_channels env (channelId (discord b)) = false ->
  only (fun e => to_discord e = false)
    (let* _ := await_ready env in
     let chunks :=
       Js.match_all DISCORD_LIMIT (composed (messageConverter m b)) in
     let channel := channels_get env (channelId (discord b)) in
     let* chunks := defined chunks "chunks is not iterable" in
     let* dcMessage :=
       for_of chunks
         (fun _ chunk =>
            let* i := send env channel chunk None in ret (Some i))
         None in
     let* dcMessage := defined dcMessage
                         "Cannot read property 'id' of null" in
     messageMap_insert TELEGRAM_TO_DISCORD (message_id m) dcMessage).
Proof.
  intros Hchan. cbv zeta. unfold channels_get. rewrite Hchan.
  destruct (dcBot_ready env) as [[]|e] eqn:Hready.
  2:{ apply only_bind_throws. now apply (await_ready_throws e). }
  destruct (Js.match_all DISCORD_LIMIT (composed (messageConverter m b)))
    as [chunks|] eqn:Hmatch.
  2:{ apply only_bind; [apply only_await|]. intros _.
      apply only_bind_throws. intros w. eexists. reflexivity. }
  pose proof (match_all_nonempty _ _ _ Hmatch) as Hne.
  destruct chunks as [|chunk rest]; [congruence|].
  apply only_bind; [apply only_await|]. intros _.
  apply only_bind; [apply only_defined|]. intros chunks.
  intros w. exists [].
  destruct chunks as [|chunk' rest'].
  - simpl. now rewrite after_nil.
  - simpl. now rewrite after_nil.
Qed.

(** Without the channel of the bridge no handler calls Discord. *)
Lemma relay_no_channel (k : EventName) (m : Message) (b : Bridge) :
  dcBot_channels env (channelId (discord b)) = false ->
  carries k m ->
  calm (fun e => to_discord e = false)
    (relay env settings messageConverter getExtension k m b).
Proof.
  intros Hchan Hfield.
  pose proof (fun arg => sendFile_no_channel b arg Hchan) as Hfile.
  assert (Hlog : forall line args,
             calm (fun e => to_discord e = false) (logger_error line args))
    by (intros line args; now apply calm_log).
  destruct k; simpl.
  - apply calm_async, calm_try; [now apply text_body_no_channel|].
    intros err. apply calm_bind; apply Hlog.
  - apply calm_async, calm_try; [|intros err; apply Hlog].
    apply only_bind; [apply only_defined|]. intros sizes.
    apply only_bind; [apply only_defined|]. intros size. apply Hfile.
  - apply calm_async, calm_try; [|intros err; apply Hlog].
    apply only_bind; [apply only_defined|]. intros st.
    apply only_bind; [apply only_defined|]. intros th. apply Hfile.
  - apply calm_async. unfold document_handler.
    destruct Hfield as [doc ->]. intros w. rewrite bind_defined_run.
    revert w. apply calm_try; [apply Hfile | intros err; apply Hlog].
  - apply calm_async, calm_try; [|intros err; apply Hlog].
    apply only_bind; [apply only_defined|]. intros v. apply Hfile.
  - apply calm_async, calm_try; [|intros err; apply Hlog].
    apply only_bind; [apply only_defined|]. intros a. apply Hfile.
  - apply calm_async, calm_try; [|intros err; apply Hlog].
    apply only_bind; [apply only_defined|]. intros v. apply Hfile.
  - unfold new_chat_members_handler.
    destruct (relayJoinMessages (telegram b)); simpl; [|apply calm_ret].
    destruct Hfield as [users ->]. intros w. rewrite bind_defined_run.
    revert w. apply calm_forEach. intros user.
    apply calm_async. unfold notify_join, channels_get. rewrite Hchan.
    apply calm_try; [|intros err; apply Hlog].
    apply only_bind; [apply only_await|]. intros _.
    apply only_bind_throws, send_none_throws.
  - apply calm_async. unfold left_chat_member_handler.
    destruct (relayLeaveMessages (telegram b)); simpl; [|apply calm_ret].
    destruct Hfield as [user ->]. intros w. rewrite bind_defined_run.
    revert w. unfold channels_get. rewrite Hchan.
    apply calm_try; [|intros err; apply Hlog].
    apply only_bind; [apply only_await|]. intros _.
    apply only_bind_throws, send_none_throws.
  - apply calm_async. unfold edited_message_handler, channels_get.
    rewrite Hchan. apply calm_try; [|intros err; apply Hlog].
    apply only_bind; [apply only_await|]. intros _.
    apply only_bind; [apply only_getCorresponding|]. intros i.
    apply only_bind_throws, fetch_none_throws.
Qed.

End Gates.

(** X8: when the promise [dcBot.ready] is rejected, none of the ten
    handlers makes a call to Telegram or to Discord: each one completes
    normally, leaves the map as it is and writes nothing but log lines. *)
Theorem not_ready_no_call (env : Environment) (settings : Settings)
  (messageConverter : Message -> Bridge -> MessageObj)
  (getExtension : option string -> option string) (e0 : JsError)
  (k : EventName) (m : Message) (b : Bridge) (w : World) :
  dcBot_ready env = Rejected e0 ->
  carries k m ->
  exists evs,
    relay env settings messageConverter getExtension k m b w
    = (Normal tt, after w evs (messageMap w))
    /\ Forall (fun e => is_call e = false) evs
    /\ Forall (fun e => unhandled e = false) evs.
Proof.
  intros Hready Hfield.
  destruct (relay_not_ready env settings messageConverter getExtension e0
              k m b Hready Hfield w) as (evs & Hrun & Hquiet).
  destruct (relay_handler_ok env settings messageConverter getExtension
              k m b Hfield w) as (evs' & mm & Hrun' & _ & Hun).
  exists evs. split; [exact Hrun|]. split; [exact Hquiet|].
  assert (Heq : after w evs (messageMap w) = after w evs' mm) by congruence.
  apply (f_equal trace) in Heq. rewrite !trace_after in Heq.
  apply app_inv_head in Heq. now subst evs'.
Qed.

Lemma not_ready_no_call_witness :
  let m := Sample.with_members [Sample.alice; Sample.bob] (Sample.blank 10 1) in
  exists evs,
    relay More.env_not_ready Sample.settings_off Sample.converter
      Sample.extensions on_new_chat_members m Sample.lounge Sample.start
    = (Normal tt, after Sample.start evs ∅)
    /\ Forall (fun e => is_call e = false) evs
    /\ Forall (fun e => unhandled e = false) evs.
Proof.
  intros m.
  exact (not_ready_no_call More.env_not_ready Sample.settings_off
           Sample.converter Sample.extensions
           (Rejection "Incorrect login details") on_new_chat_members m
           Sample.lounge Sample.start eq_refl (ex_intro _ _ eq_refl)).
Defined.

(** X9: when Discord has no channel for the bridge, none of the ten
    handlers makes a call to Discord: each one completes normally and
    leaves the map as it is; what it writes are calls to Telegram and log
    lines. *)
Theorem no_channel_no_discord_call (env : Environment) (settings : Settings)
  (messageConverter : Message -> Bridge -> MessageObj)
  (getExtension : option string -> option string) (k : EventName)
  (m : Message) (b : Bridge) (w : World) :
  dcBot_channels env (channelId (discord b)) = false ->
  carries k m ->
  exists evs,
    relay env settings messageConverter getExtension k m b w
    = (Normal tt, after w evs (messageMap w))
    /\ destination_calls evs = [].
Proof.
  intros Hchan Hfield.
  destruct (relay_no_channel env settings messageConverter getExtension
              k m b Hchan Hfield w) as (evs & Hrun & Hquiet).
  exists evs. split; [exact Hrun | now apply no_destination_calls].
Qed.

Lemma no_channel_no_discord_call_witness :
  let m := Sample.with_text "hello" (Sample.blank 5 1) in
  exists evs,
    relay More.env_no_channel Sample.settings_off Sample.converter
      Sample.extensions on_text m Sample.lounge Sample.start
    = (Normal tt, after Sample.start evs ∅)
    /\ destination_calls evs = [].
Proof.
  intros m.
  exact (no_channel_no_discord_call More.env_no_channel Sample.settings_off
           Sample.converter Sample.extensions on_text m Sample.lounge
           Sample.start eq_refl (ex_intro _ _ eq_refl)).
Defined.

(** ** What a listener leaves behind *)

(** X17: on a message that has the field of its event, a listener
    completes normally, and a rejection can stay unhandled in one case only:
    the answer to the chat info command, which has no catch.  For every
    other message, the advisory notice included, no rejection is left
    unhandled. *)
Theorem unhandled_only_for_chatinfo (env : Environment) (settings : Settings)
  (messageConverter : Message -> Bridge -> MessageObj)
  (getExtension : option string -> option string)
  (bridgeMap : gmap Z Bridge) (k : EventName) (ctx : TelegrafContext)
  (m : Message) (w : World) :
  ctx_payload ctx = Some m ->
  carries k m ->
  exists evs mm,
    listener env settings messageConverter getExtension bridgeMap k ctx w
    = (Normal tt, after w evs mm)
    /\ (is_chatinfo (me w) m = false ->
        Forall (fun e => unhandled e = false) evs)
    /\ (is_chatinfo (me w) m = true ->
        forall err,
          telegram_sendMessage env (trace w) (chat_id (chat m))
            ("chatID: " +:+ Js.of_number (chat_id (chat m))) None
          = Rejected err ->
          In (UnhandledRejection err) evs).
Proof.
  intros Hp Hfield. unfold listener.
  destruct (is_chatinfo (me w) m) eqn:Hc.
  - rewrite (wrapper_chatinfo env _ _ _ m) by assumption. cbv zeta.
    eexists _, _. split; [reflexivity|]. split; [discriminate|].
    intros _ err ->. right. now left.
  - destruct (fromTelegramChatId bridgeMap (chat_id (chat m))) as [b|] eqn:Hb.
    + rewrite (wrapper_bridge env _ _ _ m b) by assumption.
      case_decide.
      * exists [], (messageMap w). rewrite after_nil.
        split; [reflexivity|]. split; [constructor | discriminate].
      * destruct (relay_handler_ok env settings messageConverter getExtension
                    k m b Hfield w) as (evs & mm & Hrun & _ & Hun).
        exists evs, mm. split; [exact Hrun|]. split; [auto | discriminate].
    + rewrite (wrapper_no_bridge env _ _ _ m) by assumption. cbv zeta.
      eexists _, _. split; [reflexivity|]. split; [|discriminate].
      intros _.
      destruct (telegram_sendMessage env (trace w) _ ADVISORY _);
        repeat constructor.
Qed.

Lemma unhandled_only_for_chatinfo_witness :
  let m := Sample.with_text "@tedibot chatinfo" (Sample.blank 7 42) in
  exists evs mm,
    listener Sample.env_down Sample.settings_off Sample.converter
      Sample.extensions Sample.bridges on_text (Sample.incoming m)
      Sample.start
    = (Normal tt, after Sample.start evs mm)
    /\ In (UnhandledRejection (Rejection "Forbidden")) evs.
Proof.
  intros m.
  destruct (unhandled_only_for_chatinfo Sample.env_down Sample.settings_off
              Sample.converter Sample.extensions Sample.bridges on_text
              (Sample.incoming m) m Sample.start eq_refl
              (ex_intro _ _ eq_refl))
    as (evs & mm & Hrun & _ & Hun).
  exists evs, mm. split; [exact Hrun|].
  exact (Hun eq_refl (Rejection "Forbidden") eq_refl).
Defined.

(** X18: a listener changes the message map in one way at most: the
    listener for text may put one id under the tag [TELEGRAM_TO_DISCORD]
    and the id of its message.  So no listener removes an entry, and the
    entries under the tag [DISCORD_TO_TELEGRAM] stay as they are. *)
Theorem listener_writes_at_most_one_entry (env : Environment)
  (settings : Settings) (messageConverter : Message -> Bridge -> MessageObj)
  (getExtension : option string -> option string)
  (bridgeMap : gmap Z Bridge) (k : EventName) (ctx : TelegrafContext)
  (w : World) :
  let w' :=
    snd (listener env settings messageConverter getExtension bridgeMap k ctx
           w) in
  (messageMap w' = messageMap w
   \/ exists m d,
       k = on_text /\ ctx_payload ctx = Some m
       /\ messageMap w'
          = <[(TELEGRAM_TO_DISCORD, message_id m) := d]> (messageMap w))
  /\ (forall key, is_Some (messageMap w !! key) ->
                  is_Some (messageMap w' !! key))
  /\ (forall id, messageMap w' !! (DISCORD_TO_TELEGRAM, id)
                 = messageMap w !! (DISCORD_TO_TELEGRAM, id)).
Proof.
  intros w'.
  assert (Hshape :
    messageMap w' = messageMap w
    \/ exists m d,
        k = on_text /\ ctx_payload ctx = Some m
        /\ messageMap w'
           = <[(TELEGRAM_TO_DISCORD, message_id m) := d]> (messageMap w)).
  { subst w'. unfold listener.
    destruct (ctx_payload ctx) as [m|] eqn:Hp.
    2:{ left. unfold createMessageHandler. now rewrite Hp. }
    destruct (is_chatinfo (me w) m) eqn:Hc.
    { left. now rewrite (wrapper_chatinfo env _ _ _ m) by assumption. }
    destruct (fromTelegramChatId bridgeMap (chat_id (chat m))) as [b|] eqn:Hb.
    2:{ left. now rewrite (wrapper_no_bridge env _ _ _ m) by assumption. }
    rewrite (wrapper_bridge env _ _ _ m b) by assumption.
    case_decide; [now left|].
    destruct (decide (k = on_text)) as [->|Hk].
    - simpl.
      destruct (text_handler_run env messageConverter m b w)
        as (evs & mm & Hrun & _ & Hcases & _).
      unfold async. rewrite Hrun. simpl.
      destruct Hcases as [(ids & d & _ & _ & _ & ->)|[-> _]]; [|now left].
      right. now exists m, d.
    - left. now apply relay_keeps_map. }
  split; [exact Hshape|]. split.
  - intros key Hkey. destruct Hshape as [->|(m & d & _ & _ & ->)];
      [exact Hkey|].
    destruct (decide ((TELEGRAM_TO_DISCORD, message_id m) = key)) as [<-|Hne].
    + rewrite lookup_insert_eq. eauto.
    + now rewrite lookup_insert_ne.
  - intros id. destruct Hshape as [->|(m & d & _ & _ & ->)]; [reflexivity|].
    now rewrite lookup_insert_ne.
Qed.
